(** * validate: a published npm package against its git repository

    A shallow embedding of [lib/index.js] (the [Validator] class with its
    [internals] helpers) and of the dependency walker of [bin/validate],
    together with the properties of the reconciliation engine.

    Layout:
    - JavaScript values the code manipulates (strings, errors, [Taint]);
    - the outside world as a signature of operations ([Cmd]) and programs
      as trees over it ([Prog]), with [try]/[catch]/[finally] and
      [Promise.all];
    - the methods of [Validator], line by line;
    - [validatePkg] and [validate] over the memo table [results], and
      the command line;
    - a sample platform (with SHA-1 and base64) and sample worlds to run
      them on;
    - the properties: the scratch directory, the git reconciler, the
      integrity check, the diff, the walker; then more of the code:
      strings, the registry record and the fetchers, the commands a
      program performs, the walker and the command line. *)

From Stdlib Require Import String Ascii List ZArith Bool Lia DecimalString.
From stdpp Require Import base option list gmap strings.

Open Scope string_scope.
Open Scope list_scope.

Set Default Proof Using "Type".

(** ** JavaScript strings

    A string is a sequence of code units; the model keeps the units below
    256, which covers every literal of the source. *)

Module Js.

Definition LF : ascii := ascii_of_nat 10.

(** [s.startsWith(p)] *)
Definition startsWith (s p : string) : bool := String.prefix p s.

(** The pieces of [s] between the occurrences of the one-character
    separator [sep]; never the empty list. *)
Fixpoint pieces (sep : ascii) (s : string) : list string :=
  match s with
  | EmptyString => [EmptyString]
  | String c s' =>
      if Ascii.eqb c sep then EmptyString :: pieces sep s'
      else match pieces sep s' with
           | h :: t => String c h :: t
           | [] => [String c EmptyString]
           end
  end.

(** [s.split(sep)] and [s.split(sep, limit)]: with a limit the array is cut
    after [limit] pieces (the rest of the string is dropped, not kept in
    the last piece). *)
Definition split (sep : ascii) (limit : option nat) (s : string) : list string :=
  match limit with
  | None => pieces sep s
  | Some n => take n (pieces sep s)
  end.

(** [lines.join(sep)] *)
Definition join (sep : string) (l : list string) : string := String.concat sep l.

(** White space and line terminators among the code units below 256:
    TAB, LF, VT, FF, CR, SP and NBSP. *)
Definition isSpace (c : ascii) : bool :=
  let n := nat_of_ascii c in
  (Nat.leb 9 n && Nat.leb n 13) || Nat.eqb n 32 || Nat.eqb n 160.

Fixpoint trimStart (s : string) : string :=
  match s with
  | EmptyString => EmptyString
  | String c s' => if isSpace c then trimStart s' else s
  end.

Fixpoint trimEnd (s : string) : string :=
  match s with
  | EmptyString => EmptyString
  | String c s' =>
      match trimEnd s' with
      | EmptyString => if isSpace c then EmptyString else String c EmptyString
      | r => String c r
      end
  end.

(** [s.trim()] *)
Definition trim (s : string) : string := trimEnd (trimStart s).

(** Truthiness of a string ([if (s)]): the empty string is falsy. *)
Definition nonEmpty (s : string) : bool := negb (String.eqb s "").

(** Truthiness of a property that holds a string or is [undefined]. *)
Definition truthy (v : option string) : bool :=
  match v with
  | Some s => nonEmpty s
  | None => false
  end.

(** A template literal's rendering of such a property. *)
Definition show (v : option string) : string :=
  match v with
  | Some s => s
  | None => "undefined"
  end.

(** [a !== b] on strings. *)
Definition strictNe (a b : string) : bool := negb (String.eqb a b).

(** A template literal's rendering of an integer. *)
Definition showZ (n : Z) : string := NilZero.string_of_int (Z.to_int n).

(** [s.lastIndexOf(c)] for a one-character [c]: the index of its last
    occurrence, or [-1]. *)
Fixpoint lastIndexOf (c : ascii) (s : string) : Z :=
  match s with
  | EmptyString => (-1)%Z
  | String x s' =>
      let i := lastIndexOf c s' in
      if (0 <=? i)%Z then (i + 1)%Z
      else if Ascii.eqb x c then 0%Z else (-1)%Z
  end.

(** An index argument of [slice] brought into [0 .. len]: a negative one
    counts from the end. *)
Definition clampIndex (len i : Z) : Z :=
  if (i <? 0)%Z then Z.max (len + i) 0 else Z.min i len.

(** [s.slice(start)] and [s.slice(start, stop)] *)
Definition slice (s : string) (start : Z) (stop : option Z) : string :=
  let len := Z.of_nat (String.length s) in
  let from := clampIndex len start in
  let to := match stop with
            | None => len
            | Some stop => clampIndex len stop
            end in
  String.substring (Z.to_nat from) (Z.to_nat (to - from)) s.

End Js.

(** ** Taint

    [internals.Taint] is a class; [clean()] compares the receiver with the
    one object stored in [internals.Taint.none] by identity.  An object is
    therefore modelled with its address [ref]: address [0] is the object
    created when the module is loaded (line 73), and every later
    [new internals.Taint(...)] gets an address of its own (see [run]). *)

Module Taint.

(** The [details] objects the code builds: [{ expected, found }] for the
    two sha reasons, [{ expected: [...] }] for a missing tag. *)
Inductive Details : Type :=
| Sha (expected : option string) (found : string)
| Tags (expected : list string).

Record t : Type := mk { ref : nat; reason : option string; details : option Details }.

(** [internals.Taint.none = new internals.Taint()] *)
Definition none : t := {| ref := 0; reason := None; details := None |}.

(** [clean() { return this === internals.Taint.none; }] *)
Definition clean (this : t) : bool := Nat.eqb (ref this) (ref none).

End Taint.

(** ** Errors *)

(** [err.code] of a rejected [execFile]: the exit status, a name such as
    [ENOENT], or nothing. *)
Inductive ErrCode : Type :=
| ExitCode (n : Z)
| CodeName (s : string)
| NoCode.

(** [this.details = { pkg, version, diff }] of a [ValidationError]. *)
Record ErrorDetails : Type :=
  { d_pkg : option string; d_version : option string; d_diff : option string }.

(** The values the code throws or receives as rejections.  [Error] covers
    plain errors and those the platform decorates with [code] and
    [stdout]; [ValidationError] is the subclass of lines 47-55. *)
Inductive JsError : Type :=
| Error (message : string) (code : ErrCode) (stdout : option string)
| ValidationError (message : string) (details : ErrorDetails).

(** [err.code === n] *)
Definition isExit (n : Z) (c : ErrCode) : bool :=
  match c with
  | ExitCode m => Z.eqb m n
  | _ => false
  end.

(** [new Error(message)] *)
Definition newError (message : string) : JsError := Error message NoCode None.

Definition message (e : JsError) : string :=
  match e with
  | Error m _ _ => m
  | ValidationError m _ => m
  end.

Definition code (e : JsError) : ErrCode :=
  match e with
  | Error _ c _ => c
  | ValidationError _ _ => NoCode
  end.

Definition stdout (e : JsError) : option string :=
  match e with
  | Error _ _ o => o
  | ValidationError _ _ => None
  end.

Definition errorDetails (e : JsError) : option ErrorDetails :=
  match e with
  | Error _ _ _ => None
  | ValidationError _ d => Some d
  end.

(** The object literal handed to the [ValidationError] constructor at the
    throw site of [check] (line 259). *)
Record MismatchArgs : Type :=
  { a_pkg : option string;
    a_version : option string;
    a_diff : option string;
    a_taint : option Taint.t }.

(** [constructor(message, { pkg, version, diff } = {})]: the parameter's
    pattern picks three properties of the argument. *)
Definition newValidationError (message : string) (a : MismatchArgs) : JsError :=
  ValidationError message
    {| d_pkg := a_pkg a; d_version := a_version a; d_diff := a_diff a |}.

(** ** Registry records *)

Module Info.

Record Dist : Type :=
  { integrity : option string; shasum : option string; tarball : option string }.

Record Repository : Type := { type : option string; url : option string }.

(** What [npm view -json] prints for one version, as far as the code reads
    it.  A property the record lacks is [None]. *)
Record t : Type :=
  { name : option string;
    version : option string;
    dist : option Dist;
    repository : option Repository;
    gitHead : option string;
    dependencies : option (list (string * string)) }.

(** The object [{}]. *)
Definition empty : t :=
  {| name := None; version := None; dist := None; repository := None;
     gitHead := None; dependencies := None |}.

End Info.

(** The parsed output of [npm view -json]: one record, or an array of
    records when the version specifier matches several versions. *)
Inductive Json : Type :=
| JObject (info : Info.t)
| JArray (items : list Info.t).

(** ** The platform's pure functions

    Library functions the code calls and whose results depend on their
    arguments only.  They are a parameter of the development. *)

Class Platform : Type :=
  { (** [JSON.parse], with what it throws on malformed input *)
    JSON_parse : string -> JsError + Json;
    (** [Buffer.from(s, 'base64').toString('hex')] *)
    base64ToHex : string -> string;
    (** [Crypto.createHash(alg)] followed by [update] over the chunks and
        [digest('hex')]; an unknown algorithm makes [createHash] throw *)
    createHash : string -> JsError + (list Byte.byte -> string);
    (** [Path.resolve], [Path.join] *)
    Path_resolve : string -> string;
    Path_join : string -> string -> string;
    (** [Util.inspect] of a taint's details *)
    inspect : option Taint.Details -> string }.

(** ** The outside world

    Every operation whose outcome the program cannot determine: child
    processes, the file system, the network, the console, the SIGINT
    flag.  A command is indexed by the type of the value it resolves
    with; it may also reject (or throw) with an error. *)

(** How the response stream of the download finishes when it does not
    emit [error]: [end] after the chunks whose concatenation is [data], or
    [aborted]. *)
Inductive StreamEnd : Type :=
| Ended (data : list Byte.byte)
| Aborted.

Inductive Cmd : Type -> Type :=
(** [Util.promisify(ChildProcess.execFile)(command, args, options)],
    resolving with the captured [stdout]; [cwd] is the one option the
    callers set besides [maxBuffer] *)
| ExecFile (command : string) (args : list string) (cwd : option string) : Cmd string
(** [Util.promisify(Fs.mkdir)(path)] *)
| FsMkdir (path : string) : Cmd unit
(** [Wreck.request(method, url)], resolving with [res.statusCode] *)
| WreckRequest (method url : string) : Cmd Z
(** the events of the response stream of [url], up to its end *)
| ResponseEvents (url : string) : Cmd StreamEnd
(** the [tar zx --strip=1] child spawned in [cwd]: its [exit] code
    ([None] for [null]), or its [error] event as the rejection *)
| TarExit (cwd : string) : Cmd (option Z)
(** [Os.tmpdir()] and [Hoek.uniqueFilename(path)] *)
| OsTmpdir : Cmd string
| UniqueFilename (path : string) : Cmd string
(** [console.error(text)], [console.log(...items)] *)
| ConsoleError (text : string) : Cmd unit
| ConsoleLog (items : list string) : Cmd unit
(** reading the flag [exiting] that the SIGINT handler sets *)
| Exiting : Cmd bool.

(** ** Programs

    An [async] function is a tree: it returns, throws, performs a command
    and continues with its outcome, allocates a [Taint], or (inside
    [Promise.all]) lets the event loop choose which of two pending
    operations settles first.  [Detach q k] goes on as [k] and leaves [q]
    running: a started call that nobody awaits any more, with the
    operation it waits on and all it has still to do. *)

Inductive Prog (A : Type) : Type :=
| Ret (a : A)
| Throw (e : JsError)
| Call {R : Type} (c : Cmd R) (k : JsError + R -> Prog A)
| New (reason : option string) (details : option Taint.Details) (k : Taint.t -> Prog A)
| Pick (k : bool -> Prog A)
| Detach (q : Prog unit) (k : Prog A).

Arguments Ret {A} a.
Arguments Throw {A} e.
Arguments Call {A R} c k.
Arguments New {A} reason details k.
Arguments Pick {A} k.
Arguments Detach {A} q k.

Fixpoint bind {A B} (p : Prog A) (f : A -> Prog B) : Prog B :=
  match p with
  | Ret a => f a
  | Throw e => Throw e
  | Call c k => Call c (fun o => bind (k o) f)
  | New r d k => New r d (fun t => bind (k t) f)
  | Pick k => Pick (fun b => bind (k b) f)
  | Detach q k => Detach q (bind k f)
  end.

Declare Scope prog_scope.
Delimit Scope prog_scope with prog.
Bind Scope prog_scope with Prog.
Notation "x <- p ;; q" := (bind p (fun x => q))
  (at level 20, p at level 99, q at level 200, only parsing) : prog_scope.
Notation "' pat <- p ;; q" := (bind p (fun x => match x with pat => q end))
  (at level 20, pat pattern, p at level 99, q at level 200, only parsing) : prog_scope.
Notation "p ;; q" := (bind p (fun _ => q))
  (at level 100, q at level 200, only parsing, right associativity) : prog_scope.
Open Scope prog_scope.

(** [await op]: the value the operation resolves with, or its rejection
    thrown. *)
Definition await {R} (c : Cmd R) : Prog R :=
  Call c (fun o => match o with inl e => Throw e | inr r => Ret r end).

(** [try { p } catch (err) { h err }] *)
Fixpoint try_catch {A} (p : Prog A) (h : JsError -> Prog A) : Prog A :=
  match p with
  | Ret a => Ret a
  | Throw e => h e
  | Call c k => Call c (fun o => try_catch (k o) h)
  | New r d k => New r d (fun t => try_catch (k t) h)
  | Pick k => Pick (fun b => try_catch (k b) h)
  | Detach q k => Detach q (try_catch k h)
  end.

(** [try { p } finally { f }]: [f] runs however [p] completes; when [f]
    throws, its error replaces the completion of [p]. *)
Fixpoint finally {A} (p : Prog A) (f : Prog unit) : Prog A :=
  match p with
  | Ret a => f ;; Ret a
  | Throw e => f ;; Throw e
  | Call c k => Call c (fun o => finally (k o) f)
  | New r d k => New r d (fun t => finally (k t) f)
  | Pick k => Pick (fun b => finally (k b) f)
  | Detach q k => Detach q (finally k f)
  end.

(** A call that is not awaited any more: it runs on, and what it
    resolves or rejects with is dropped. *)
Definition abandoned {A} (p : Prog A) : Prog unit := p ;; Ret tt.

(** [Promise.all([p, q])] of two started [async] calls.  The promise
    resolves when both have resolved and rejects as soon as one of them
    has rejected; the other call is neither awaited nor cancelled then:
    it is left running ([Detach]) with its pending operation.  While both
    wait on an operation, [Pick] decides whose operation settles first;
    an operation enters the trace when it settles.  Allocation is not a
    suspension point. *)
Fixpoint all {A B} (p : Prog A) : Prog B -> Prog (A * B) :=
  fix all_p (q : Prog B) : Prog (A * B) :=
    match p with
    | Throw e =>
        match q with
        | Ret _ | Throw _ => Throw e
        | _ => Detach (abandoned q) (Throw e)
        end
    | New r d k => New r d (fun t => all (k t) q)
    | Detach o k => Detach o (all k q)
    | Ret a =>
        match q with
        | Throw e => Throw e
        | _ => b <- q ;; Ret (a, b)
        end
    | Call c k =>
        match q with
        | Throw e => Detach (abandoned p) (Throw e)
        | Ret b => a <- p ;; Ret (a, b)
        | New r d k' => New r d (fun t => all_p (k' t))
        | Detach o k' => Detach o (all_p k')
        | Call c' k' =>
            Pick (fun first =>
              if first then Call c (fun o => all (k o) q)
              else Call c' (fun o => all_p (k' o)))
        | Pick k' => Pick (fun b => all_p (k' b))
        end
    | Pick k => Pick (fun b => all (k b) q)
    end.

(** [Hoek.assert(condition, message)] *)
Definition assert (condition : bool) (message : string) : Prog unit :=
  if condition then Ret tt else Throw (newError message).

(** [internals.exec(command, ...args)] and
    [internals.exec(command, ...args, { cwd })] *)
Definition exec (command : string) (args : list string) (cwd : option string) : Prog string :=
  await (ExecFile command args cwd).

(** ** The [Validator] class *)

(** An instance: [this.package], [this.version], the one option that is
    read ([this.options.loose], by its truthiness) and the cache
    [this._details] ([None] for [null]). *)
Record Validator : Type :=
  { package : string;
    version : string;
    loose : bool;
    _details : option Json }.

Definition set_details (this : Validator) (d : option Json) : Validator :=
  {| package := package this; version := version this; loose := loose this;
     _details := d |}.

(** [new Validator(packageName, version, options)] (lines 78-88) *)
Definition newValidator (packageName version : string) (loose : bool) : Prog Validator :=
  assert (Js.nonEmpty packageName) "Bad package name" ;;
  assert (Js.nonEmpty version) "Bad package version" ;;
  Ret {| package := packageName; version := version; loose := loose; _details := None |}.

(** What [internals.packageHash] returns. *)
Record PackageHash : Type := { alg : string; hash : string }.

(** A property read from [undefined]. *)
Definition typeError (property : string) : JsError :=
  newError ("Cannot read property " +:+ property +:+ " of undefined").

Definition DQ : string := String (ascii_of_nat 34) "".
Definition NL : string := String Js.LF "".

Section Methods.
Context {platform : Platform}.

(** [internals.packageHash] (lines 32-44).  [info.dist] is read without a
    test, and so is the second piece of the integrity string, which
    [Buffer.from] refuses when it is [undefined]. *)
Definition packageHash (info : Info.t) : Prog PackageHash :=
  match Info.dist info with
  | None => Throw (typeError "integrity")
  | Some dist =>
      if Js.truthy (Info.integrity dist) then
        match Js.split "-" (Some 2) (Js.show (Info.integrity dist)) with
        | alg :: hash :: _ => Ret {| alg := alg; hash := base64ToHex hash |}
        | _ => Throw (newError "The first argument must be one of type string, Buffer, ArrayBuffer, Array, or Array-like Object")
        end
      else if Js.truthy (Info.shasum dist) then
        Ret {| alg := "sha1"; hash := Js.show (Info.shasum dist) |}
      else Throw (newError "No package hash")
  end.

(** [fetchDetails] (lines 90-112).  The method updates [this._details];
    the updated object is returned beside the record.  The second test of
    [this._details] after the [await] guards against a concurrent call
    having filled the cache meanwhile; within one thread of control it
    holds whenever the first did. *)
Definition fetchDetails (this : Validator) : Prog (Validator * Info.t) :=
  this <- match _details this with
          | None =>
              json <- exec "npm" ["view"; "-json"; package this +:+ "@" +:+ version this] None ;;
              match (if Js.nonEmpty json then JSON_parse json else inr (JObject Info.empty)) with
              | inl e => Throw e
              | inr d => Ret (set_details this (Some d))
              end
          | Some _ => Ret this
          end ;;
  this <- match _details this with
          | Some (JArray items) =>
              if negb (loose this) then Throw (newError "Version specifier is too loose")
              else Ret (set_details this (JObject <$> last items))
          | _ => Ret this
          end ;;
  match _details this with
  | None => Throw (typeError "name")
  | Some (JArray _) => Throw (newError "Failed to find package / version")
  | Some (JObject info) =>
      if negb (Js.truthy (Info.name info)) then Throw (newError "Failed to find package / version")
      else Ret (this, info)
  end.

(** [Hoek.assert(dst && typeof dst === 'string' && dst !== '/', ...)] *)
Definition validDst (dst : string) : bool :=
  Js.nonEmpty dst && Js.strictNe dst "/".

(** [fetchDone] (lines 126-131) and [tarDone] (lines 138-145) *)
Definition fetchDone (url : string) : Prog (list Byte.byte) :=
  Call (ResponseEvents url) (fun o =>
    match o with
    | inl e => Throw e
    | inr Aborted => Throw (newError "Aborted request")
    | inr (Ended data) => Ret data
    end).

Definition tarDone (dst : string) : Prog unit :=
  Call (TarExit dst) (fun o =>
    match o with
    | inl e => Throw e
    | inr (Some 0%Z) => Ret tt
    | inr code => Throw (newError ("Abnormal exit, code: " +:+ from_option Js.showZ "null" code))
    end).

(** [fetchPackageSource], lines 116-153: everything up to the end of the
    download and of the extraction.  It returns the expected hash, the
    hasher and the bytes the [data] events fed to it. *)
Definition fetchPackageStream (this : Validator) (dst : string)
  : Prog (PackageHash * (list Byte.byte -> string) * list Byte.byte) :=
  assert (validDst dst) "Invalid dst path" ;;
  '(_, info) <- fetchDetails this ;;
  tarball <- match Info.dist info with
             | None => Throw (typeError "tarball")
             | Some dist => assert (Js.truthy (Info.tarball dist)) "Missing package url" ;;
                            Ret (Js.show (Info.tarball dist))
             end ;;
  statusCode <- await (WreckRequest "GET" tarball) ;;
  (if negb (Z.eqb statusCode 200) then
     Throw (newError ("Bad server response: " +:+ Js.showZ statusCode))
   else Ret tt) ;;
  let dst := Path_resolve dst in
  await (FsMkdir dst) ;;
  packageHash <- packageHash info ;;
  hasher <- match createHash (alg packageHash) with
            | inl e => Throw e
            | inr h => Ret h
            end ;;
  '(data, _) <- all (fetchDone tarball) (tarDone dst) ;;
  Ret (packageHash, hasher, data).

(** [fetchPackageSource] (lines 114-161) *)
Definition fetchPackageSource (this : Validator) (dst : string) : Prog Taint.t :=
  '(packageHash, hasher, data) <- fetchPackageStream this dst ;;
  let digest := hasher data in
  if Js.strictNe digest (hash packageHash) then Throw (newError "Bad package hash")
  else Ret Taint.none.

(** Lines 173-181: whether the repository is on github, and the url to
    clone. *)
Definition isGithub (url : string) : bool :=
  match Js.split ":" (Some 2) url with
  | [_; rest] => Js.startsWith rest "//github.com/"
  | _ => false
  end.

Definition cloneUrl (url : string) : string :=
  match Js.split ":" (Some 2) url with
  | [scheme; rest] =>
      if isGithub url && (String.eqb scheme "git+https" || String.eqb scheme "git")
      then "https:" +:+ rest
      else url
  | _ => url
  end.

Definition gitClone (repoUrl ref dst : string) : Prog string :=
  exec "git" ["clone"; "--depth"; "1"; "--single-branch"; repoUrl; "-b"; ref; dst] None.

(** Lines 186-198: the clone at the tag [v<version>], retried at the tag
    [<version>]; the retry's own error is dropped. *)
Definition cloneByTag (repoUrl version dst : string) : Prog unit :=
  try_catch
    (gitClone repoUrl ("v" +:+ version) dst ;; Ret tt)
    (fun err =>
       try_catch
         (gitClone repoUrl version dst ;; Ret tt)
         (fun ignoredErr => Throw err)).

(** Lines 200-203: the checked-out commit against [info.gitHead].  [Some]
    is the [return] of line 202; [None] leaves the [try] block. *)
Definition verifyHead (gitHead : option string) (dst : string) : Prog (option Taint.t) :=
  gitRev <- exec "git" ["rev-parse"; "--verify"; "HEAD"] (Some dst) ;;
  let gitRev := Js.trim gitRev in
  if negb (Js.nonEmpty gitRev) || negb (bool_decide (gitHead = Some gitRev)) then
    New (Some (if Js.truthy gitHead then "sha-mismatch" else "sha-missing"))
        (Some (Taint.Sha gitHead gitRev))
        (fun taint => Ret (Some taint))
  else Ret None.

(** Lines 210-222: the checkout of the commit [gitHead] itself. *)
Definition fetchBySha (repoUrl version gitHead dst : string) : Prog (option Taint.t) :=
  let execOptions := Some dst in
  exec "rm" ["-rf"; dst] None ;;
  await (FsMkdir dst) ;;
  exec "git" ["init"] execOptions ;;
  exec "git" ["remote"; "add"; "origin"; repoUrl] execOptions ;;
  exec "git" ["fetch"; "--depth"; "1"; "origin"; gitHead] execOptions ;;
  exec "git" ["checkout"; "FETCH_HEAD"] execOptions ;;
  New (Some "tag-missing") (Some (Taint.Tags ["v" +:+ version; version]))
      (fun taint => Ret (Some taint)).

(** Lines 185-225, for the registry record [info] and the resolved [dst]. *)
Definition reconcile (info : Info.t) (url dst : string) : Prog Taint.t :=
  let version := Js.show (Info.version info) in
  let repoUrl := cloneUrl url in
  returned <-
    try_catch
      (cloneByTag repoUrl version dst ;; verifyHead (Info.gitHead info) dst)
      (fun err =>
         if negb (isGithub url) || negb (Js.truthy (Info.gitHead info)) then Throw err
         else fetchBySha repoUrl version (Js.show (Info.gitHead info)) dst) ;;
  match returned with
  | Some taint => Ret taint
  | None => Ret Taint.none
  end.

(** [fetchGitSource] (lines 163-226) *)
Definition fetchGitSource (this : Validator) (dst : string) : Prog Taint.t :=
  assert (validDst dst) "Invalid dst path" ;;
  '(_, info) <- fetchDetails this ;;
  let repo := default {| Info.type := None; Info.url := None |} (Info.repository info) in
  assert (bool_decide (Info.type repo = Some "git") && Js.truthy (Info.url repo))
         "Did not find git repo url" ;;
  reconcile info (Js.show (Info.url repo)) (Path_resolve dst).

(** Lines 254-256: the captured output without the lines that report a
    path of the git tree only. *)
Definition filterDiff (stdout : string) : string :=
  let lines := Js.split Js.LF None stdout in
  let filtered := List.filter (fun line => negb (Js.startsWith line "Only in git")) lines in
  Js.trim (Js.join NL filtered).

(** Lines 247-268 of [check]: the diff of the two trees.  The object has
    no property [pkg], so [this.pkg] is [undefined]. *)
Definition diffTrees (this : Validator) (tmpDir : string) (git : Taint.t) : Prog Taint.t :=
  try_catch
    (exec "diff" ["-r"; "-u"; "--strip-trailing-cr"; "git"; "package"] (Some tmpDir) ;;
     Ret git)
    (fun err =>
       if (isExit 1 (code err) || isExit 2 (code err)) && Js.truthy (stdout err) then
         let diff := filterDiff (Js.show (stdout err)) in
         if Js.nonEmpty diff then
           Throw (newValidationError "Mismatch"
                    {| a_pkg := None; a_version := Some (version this);
                       a_diff := Some diff; a_taint := Some git |})
         else Ret git
       else Throw err).

(** Lines 237-245 of [check]: the two sources side by side, and the
    advisory on a tainted checkout. *)
Definition fetchSources (this : Validator) (pkgPath gitPath : string) : Prog Taint.t :=
  '(this, _) <- fetchDetails this ;;
  '(_, git) <- all (fetchPackageSource this pkgPath) (fetchGitSource this gitPath) ;;
  (if negb (Taint.clean git) then
     await (ConsoleError ("git checkout tainted due to " +:+ DQ +:+ Js.show (Taint.reason git)
                            +:+ DQ +:+ ": " +:+ inspect (Taint.details git)))
   else Ret tt) ;;
  Ret git.

(** [check] (lines 228-273) *)
Definition check (this : Validator) : Prog Taint.t :=
  tmp <- await OsTmpdir ;;
  tmpDir <- await (UniqueFilename tmp) ;;
  let pkgPath := Path_join tmpDir "package" in
  let gitPath := Path_join tmpDir "git" in
  await (FsMkdir tmpDir) ;;
  finally
    (git <- fetchSources this pkgPath gitPath ;;
     diffTrees this tmpDir git)
    (exec "rm" ["-rf"; tmpDir] None ;; Ret tt).

End Methods.

(** ** Running a program against the outside world *)

(** The outside world: a state, its answer to each command (a rejection or
    the value resolved with) and its choice between two pending
    operations. *)
Class Outside (W : Type) : Type :=
  { respond : forall {R : Type}, Cmd R -> W -> W * (JsError + R);
    pick : W -> W * bool }.

(** A command that settled, and the error it settled with if it failed. *)
Definition Event : Type := { R : Type & Cmd R }.

Record Entry : Type := { command : Event; failure : option JsError }.

Definition event {R} (c : Cmd R) : Event := existT R c.

Definition entry {R} (c : Cmd R) (o : JsError + R) : Entry :=
  {| command := event c;
     failure := match o with inl e => Some e | inr _ => None end |}.

Section Run.
Context {W : Type} {outside : Outside W}.

(** The state of a run: the world, the number of [Taint] objects
    allocated since the module was loaded, the commands that have
    settled so far, oldest first, and the calls left running, with all
    they have still to do. *)
Record RunState : Type :=
  { world : W; allocated : nat; trace : list Entry; detached : list (Prog unit) }.

Definition initial (w : W) : RunState :=
  {| world := w; allocated := 0; trace := []; detached := [] |}.

(** The state once the command [c] has settled with [o], leaving the
    world in [w]. *)
Definition settle {R} (s : RunState) (c : Cmd R) (w : W) (o : JsError + R) : RunState :=
  {| world := w; allocated := allocated s; trace := trace s ++ [entry c o];
     detached := detached s |}.

(** The state once a [Taint] has been allocated, and the new object. *)
Definition allocate (s : RunState) : RunState :=
  {| world := world s; allocated := S (allocated s); trace := trace s;
     detached := detached s |}.

(** The state once the event loop has chosen, leaving the world in [w];
    the state once the call [q] is left running. *)
Definition chosen (s : RunState) (w : W) : RunState :=
  {| world := w; allocated := allocated s; trace := trace s; detached := detached s |}.

Definition leave (s : RunState) (q : Prog unit) : RunState :=
  {| world := world s; allocated := allocated s; trace := trace s;
     detached := detached s ++ [q] |}.

Definition newTaint (s : RunState) (reason : option string) (details : option Taint.Details)
  : Taint.t :=
  Taint.mk (S (allocated s)) reason details.

Fixpoint run {A} (p : Prog A) (s : RunState) : RunState * (JsError + A) :=
  match p with
  | Ret a => (s, inr a)
  | Throw e => (s, inl e)
  | Call c k =>
      let '(w, o) := respond c (world s) in
      run (k o) (settle s c w o)
  | New r d k => run (k (newTaint s r d)) (allocate s)
  | Pick k =>
      let '(w, b) := pick (world s) in
      run (k b) (chosen s w)
  | Detach q k => run k (leave s q)
  end.

(** [run] follows the awaited chain and lets the calls left running
    wait.  [resume] lets them come to their end afterwards, oldest
    first. *)
Definition resume (s : RunState) : RunState :=
  fold_left (fun s q => (run q s).1) (detached s)
            {| world := world s; allocated := allocated s; trace := trace s;
               detached := [] |}.

End Run.

(** ** What a program can return

    [returns P p]: every value [p] can return satisfies [P], given that
    an allocated [Taint] is never the object [Taint.none]. *)

Inductive returns {A} (P : A -> Prop) : Prog A -> Prop :=
| returns_Ret a : P a -> returns P (Ret a)
| returns_Throw e : returns P (Throw e)
| returns_Call {R} (c : Cmd R) k : (forall o, returns P (k o)) -> returns P (Call c k)
| returns_New r d k :
    (forall t, Taint.clean t = false -> returns P (k t)) -> returns P (New r d k)
| returns_Pick k : (forall b, returns P (k b)) -> returns P (Pick k)
| returns_Detach q k : returns P k -> returns P (Detach q k).

(** [only Q p]: every command satisfies [Q] that [p] can perform, by
    itself or by a call it leaves running. *)
Inductive only (Q : Event -> Prop) : forall {A}, Prog A -> Prop :=
| only_Ret {A} (a : A) : only Q (Ret a)
| only_Throw {A} e : only Q (Throw (A := A) e)
| only_Call {A R} (c : Cmd R) (k : JsError + R -> Prog A) :
    Q (event c) -> (forall o, only Q (k o)) -> only Q (Call c k)
| only_New {A} r d (k : Taint.t -> Prog A) : (forall t, only Q (k t)) -> only Q (New r d k)
| only_Pick {A} (k : bool -> Prog A) : (forall b, only Q (k b)) -> only Q (Pick k)
| only_Detach {A} q (k : Prog A) : only Q q -> only Q k -> only Q (Detach q k).

(** ** Names for the statements *)

(** Whether the code unit [c] occurs in [s]. *)
Fixpoint occurs (c : ascii) (s : string) : bool :=
  match s with
  | EmptyString => false
  | String x s' => Ascii.eqb x c || occurs c s'
  end.

(** The arguments of a command that runs [rm]; whether a command runs
    [npm]; whether it writes to [console.error]. *)
Definition removal (e : Event) : option (list string) :=
  match projT2 e with
  | ExecFile command args _ => if String.eqb command "rm" then Some args else None
  | _ => None
  end.

Definition asksRegistry (e : Event) : bool :=
  match projT2 e with
  | ExecFile command _ _ => String.eqb command "npm"
  | _ => false
  end.

Definition announces (e : Event) : bool :=
  match projT2 e with
  | ConsoleError _ => true
  | _ => false
  end.

(** The trace entry of a command that succeeded. *)
Definition succeeded (c : Event) : Entry := {| command := c; failure := None |}.

(** Every [rm] is [rm -rf] of one of [dirs]. *)
Definition removesOnly (dirs : list string) (e : Event) : Prop :=
  forall args, removal e = Some args -> exists dir, In dir dirs /\ args = ["-rf"; dir].

(** The registry lookup of [fetchDetails], as [exec] passes it on. *)
Definition viewCommand (this : Validator) : Cmd string :=
  ExecFile "npm" ["view"; "-json"; package this +:+ "@" +:+ version this] None.

(** The commands of [fetchGitSource], as [exec] passes them on. *)
Definition cloneCommand (repoUrl ref dst : string) : Cmd string :=
  ExecFile "git" ["clone"; "--depth"; "1"; "--single-branch"; repoUrl; "-b"; ref; dst] None.

Definition revParseCommand (dst : string) : Cmd string :=
  ExecFile "git" ["rev-parse"; "--verify"; "HEAD"] (Some dst).

Definition removeCommand (dir : string) : Cmd string :=
  ExecFile "rm" ["-rf"; dir] None.

Definition diffCommand (tmpDir : string) : Cmd string :=
  ExecFile "diff" ["-r"; "-u"; "--strip-trailing-cr"; "git"; "package"] (Some tmpDir).

(** The six steps of [fetchBySha], in order. *)
Definition fallbackCommands (repoUrl gitHead dst : string) : list Event :=
  [event (removeCommand dst);
   event (FsMkdir dst);
   event (ExecFile "git" ["init"] (Some dst));
   event (ExecFile "git" ["remote"; "add"; "origin"; repoUrl] (Some dst));
   event (ExecFile "git" ["fetch"; "--depth"; "1"; "origin"; gitHead] (Some dst));
   event (ExecFile "git" ["checkout"; "FETCH_HEAD"] (Some dst))].

(** Equality of two strings up to the case of their letters: the
    comparison the specification describes for the digest, to set
    against [Js.strictNe] of line 156. *)
Definition lowerCase (c : ascii) : ascii :=
  let n := nat_of_ascii c in
  if Nat.leb 65 n && Nat.leb n 90 then ascii_of_nat (n + 32) else c.

Fixpoint equalIgnoringCase (a b : string) : bool :=
  match a, b with
  | EmptyString, EmptyString => true
  | String x a, String y b => Ascii.eqb (lowerCase x) (lowerCase y) && equalIgnoringCase a b
  | _, _ => false
  end.

(** The memo keys [`${pkg}@${version}`]. *)
Definition key (pkg version : string) : string := pkg +:+ "@" +:+ version.

(** A string is blank when it has white space only. *)
Definition blank (s : string) : Prop := Js.trimStart s = "".

(** The url [fetchGitSource] accepts in a registry record: that of a
    repository of type [git], when it is not empty. *)
Definition gitRepositoryUrl (info : Info.t) : option string :=
  match Info.repository info with
  | Some repo =>
      if bool_decide (Info.type repo = Some "git") && Js.truthy (Info.url repo)
      then Info.url repo else None
  | None => None
  end.

(** ** The dependency walker of [bin/validate] *)

(** What [validatePkg] resolves with: an object with some of the
    properties [result], [error] and [info].  A [result] that is
    [undefined] and a missing [result] read the same. *)
Record Reply : Type :=
  { result : option Taint.t; error : option JsError; info : option Info.t }.

Section Walker.
Context {platform : Platform} {W : Type} {outside : Outside W}.

(** The state of a walk: the memo table [results] (a key maps to
    [undefined], here [None], or to the outcome of [check()]) and the
    state of the run.  [checks] is bookkeeping of the model and no
    variable of the source: the version keys for which [check()] was
    called, oldest first. *)
Record Walk : Type :=
  { results : gmap string (option Taint.t);
    checks : list string;
    state : RunState (W := W) }.

Definition start (w : W) : Walk :=
  {| results := ∅; checks := []; state := initial w |}.

(** Lines 64-65 of [validatePkg]: a new validator and its registry
    lookup. *)
Definition lookupDetails (pkg version : string) (loose : bool) : Prog (Validator * Info.t) :=
  validator <- newValidator pkg version loose ;; fetchDetails validator.

(** [validatePkg] (lines 53-85) *)
Definition validatePkg (pkg version : string) (loose : bool) (σ : Walk) : Walk * Reply :=
  let queryKey := pkg +:+ "@" +:+ version in
  match results σ !! queryKey with
  | Some stored => (σ, {| result := stored; error := None; info := None |})
  | None =>
      let results1 := <[queryKey := None]> (results σ) in
      match run (lookupDetails pkg version loose) (state σ) with
      | (s, inl err) =>
          ({| results := results1; checks := checks σ; state := s |},
           {| result := None; error := Some err; info := None |})
      | (s, inr (validator, info)) =>
          let versionKey := pkg +:+ "@" +:+ Js.show (Info.version info) in
          match results1 !! versionKey with
          | Some stored =>
              ({| results := results1; checks := checks σ; state := s |},
               {| result := stored; error := None; info := None |})
          | None =>
              let results2 := <[versionKey := None]> results1 in
              match run (await (ConsoleLog [" * Validating package: " +:+ Js.show (Info.name info)
                                              +:+ "@" +:+ Js.show (Info.version info)])) s with
              | (s, inl err) =>
                  ({| results := results2; checks := checks σ; state := s |},
                   {| result := None; error := Some err; info := Some info |})
              | (s, inr _) =>
                  match run (check validator) s with
                  | (s, inl err) =>
                      ({| results := results2; checks := checks σ ++ [versionKey]; state := s |},
                       {| result := None; error := Some err; info := Some info |})
                  | (s, inr result) =>
                      ({| results := <[queryKey := Some result]> (<[versionKey := Some result]> results2);
                          checks := checks σ ++ [versionKey];
                          state := s |},
                       {| result := Some result; error := None; info := Some info |})
                  end
              end
          end
      end
  end.

(** Lines 91-96 of [validate]: the report of a failure. *)
Definition report (error : option JsError) : Prog unit :=
  match error with
  | None => Ret tt
  | Some error =>
      await (ConsoleLog [" ! Fail:"; message error]) ;;
      match errorDetails error with
      | Some details =>
          if Js.truthy (d_diff details) then await (ConsoleLog [Js.show (d_diff details)])
          else Ret tt
      | None => Ret tt
      end
  end.

(** [checkAbort] (lines 41-46) *)
Definition checkAbort : Prog unit :=
  exiting <- await Exiting ;;
  if (exiting : bool) then Throw (newError "Aborted") else Ret tt.

Definition with_state (σ : Walk) (s : RunState) : Walk :=
  {| results := results σ; checks := checks σ; state := s |}.

(** The loop of lines 101-105 over [info.dependencies], in the order of
    its keys; [recurse] is the call [validate(dep, spec, ...)]. *)
Fixpoint eachDependency (recurse : string -> string -> Walk -> option (Walk * (JsError + bool)))
    (deps : list (string * string)) (tainted : bool) (σ : Walk)
  : option (Walk * (JsError + bool)) :=
  match deps with
  | [] => Some (σ, inr (negb tainted))
  | (dep, spec) :: deps =>
      match run checkAbort (state σ) with
      | (s, inl e) => Some (with_state σ s, inl e)
      | (s, inr _) =>
          match recurse dep spec (with_state σ s) with
          | None => None
          | Some (σ, inl e) => Some (σ, inl e)
          | Some (σ, inr ok) => eachDependency recurse deps (tainted || negb ok) σ
          end
      end
  end.

(** [validate] (lines 87-109).  The recursion follows the registry's
    answers, so the model takes the depth it may reach as [fuel]; [None]
    is a walk cut short by it.  [Some (σ, inl e)] is a rejected promise
    (the abort), [Some (σ, inr ok)] the value resolved with. *)
Fixpoint validate (fuel : nat) (pkg version : string) (loose recursive : bool) (σ : Walk)
  : option (Walk * (JsError + bool)) :=
  match fuel with
  | O => None
  | S fuel =>
      let '(σ, reply) := validatePkg pkg version loose σ in
      match run (report (error reply)) (state σ) with
      | (s, inl e) => Some (with_state σ s, inl e)
      | (s, inr _) =>
          let σ := with_state σ s in
          let tainted :=
            match result reply with
            | None => true
            | Some result => negb (Taint.clean result)
            end in
          match info reply with
          | Some info =>
              match Info.dependencies info with
              | Some deps =>
                  if recursive then
                    eachDependency (fun dep spec σ => validate fuel dep spec true recursive σ)
                                   deps tainted σ
                  else Some (σ, inr (negb tainted))
              | None => Some (σ, inr (negb tainted))
              end
          | None => Some (σ, inr (negb tainted))
          end
      end
  end.

(** The invariant of a walk: no version key was checked twice, and every
    checked version key is in the memo table. *)
Definition consistentWith (results : gmap string (option Taint.t)) (checks : list string)
  : Prop :=
  NoDup checks /\ forall k, k ∈ checks -> is_Some (results !! k).

Definition consistent (σ : Walk) : Prop := consistentWith (results σ) (checks σ).

(** The registry is finite for the walk when every dependency it can
    name has its memo key in the finite set [U]. *)
Definition finiteRegistry (U : gset string) : Prop :=
  forall pkg version loose (s s' : RunState (W := W)) v i deps dep spec,
    run (lookupDetails pkg version loose) s = (s', inr (v, i)) ->
    Info.dependencies i = Some deps ->
    In (dep, spec) deps ->
    key dep spec ∈ U.

End Walker.

(** Every version that was checked holds [Taint.none] in the memo
    table. *)
Definition allClean {W : Type} (σ : Walk (W := W)) : Prop :=
  forall k, k ∈ checks σ -> results σ !! k = Some (Some Taint.none).

(** ** The command line of [bin/validate] *)

(** Lines 114-121: the package and the version named by the argument of
    [-p]. *)
Definition target (p : string) : string * string :=
  let atIndex := Js.lastIndexOf "@" p in
  if (1 <? atIndex)%Z then (Js.slice p 0 (Some atIndex), Js.slice p (atIndex + 1) None)
  else (p, "latest").



Section CommandLine.
Context {platform : Platform} {W : Type} {outside : Outside W}.

(** What [console.error] prints for an [Error] object. *)
Variable inspectError : JsError -> string.

(** The text of [Bossy.usage(definition, ...)]. *)
Variable usage : string.




End CommandLine.

(** ** A sample platform and sample worlds

    Concrete instances of the two parameters, on which the definitions
    above are evaluated. *)

(** SHA-1 (FIPS 180-4) over bytes, printed in lower-case hexadecimal as
    [digest('hex')] prints it. *)
Module Sha1.

Local Open Scope Z_scope.

Definition w32 (x : Z) : Z := x mod 2 ^ 32.

Definition rotl (n x : Z) : Z := w32 (Z.lor (Z.shiftl x n) (Z.shiftr x (32 - n))).

(** The message, the byte [0x80], zeros up to 56 modulo 64, and the
    length in bits on eight bytes. *)
Definition pad (msg : list Z) : list Z :=
  let len := Z.of_nat (length msg) in
  let zeros := Z.to_nat ((55 - len) mod 64) in
  (msg ++ [128] ++ repeat 0 zeros
       ++ map (fun i => Z.shiftr (8 * len) (8 * (7 - Z.of_nat i)) mod 256) (seq 0 8))%list.

Fixpoint words (fuel : nat) (bytes : list Z) : list Z :=
  match fuel, bytes with
  | S fuel, a :: b :: c :: d :: rest =>
      (Z.shiftl a 24 + Z.shiftl b 16 + Z.shiftl c 8 + d) :: words fuel rest
  | _, _ => []
  end.

(** The message schedule, newest word first. *)
Fixpoint schedule (n : nat) (w : list Z) : list Z :=
  match n with
  | O => w
  | S n =>
      let x := Z.lxor (Z.lxor (nth 2 w 0) (nth 7 w 0)) (Z.lxor (nth 13 w 0) (nth 15 w 0)) in
      schedule n (rotl 1 x :: w)
  end.

Definition round (t : nat) (wt : Z) (st : Z * Z * Z * Z * Z) : Z * Z * Z * Z * Z :=
  let '(a, b, c, d, e) := st in
  let '(f, k) :=
    if Nat.ltb t 20 then (Z.lor (Z.land b c) (Z.land (Z.lxor b 4294967295) d), 1518500249)
    else if Nat.ltb t 40 then (Z.lxor (Z.lxor b c) d, 1859775393)
    else if Nat.ltb t 60 then
      (Z.lor (Z.lor (Z.land b c) (Z.land b d)) (Z.land c d), 2400959708)
    else (Z.lxor (Z.lxor b c) d, 3395469782) in
  (w32 (rotl 5 a + f + e + k + wt), a, rotl 30 b, c, d).

Fixpoint rounds (t : nat) (ws : list Z) (st : Z * Z * Z * Z * Z) : Z * Z * Z * Z * Z :=
  match ws with
  | [] => st
  | wt :: ws => rounds (S t) ws (round t wt st)
  end.

Definition block (st : Z * Z * Z * Z * Z) (ws : list Z) : Z * Z * Z * Z * Z :=
  let '(a, b, c, d, e) := st in
  let '(a', b', c', d', e') := rounds 0 (rev (schedule 64 (rev ws))) st in
  (w32 (a + a'), w32 (b + b'), w32 (c + c'), w32 (d + d'), w32 (e + e')).

Fixpoint blocks (fuel : nat) (ws : list Z) (st : Z * Z * Z * Z * Z) : Z * Z * Z * Z * Z :=
  match fuel, ws with
  | S fuel, _ :: _ => blocks fuel (skipn 16 ws) (block st (firstn 16 ws))
  | _, _ => st
  end.

Definition hexDigit (n : Z) : ascii :=
  ascii_of_nat (Z.to_nat (if n <? 10 then 48 + n else 87 + n)).

Definition hexWord (x : Z) : string :=
  fold_right (fun i s => String (hexDigit (Z.shiftr x (4 * (7 - Z.of_nat i)) mod 16)) s)
             EmptyString (seq 0 8).

Definition digest (msg : list Byte.byte) : string :=
  let bytes := pad (map (fun b => Z.of_N (Byte.to_N b)) msg) in
  let ws := words (length bytes) bytes in
  let '(a, b, c, d, e) :=
    blocks (length ws) ws (1732584193, 4023233417, 2562383102, 271733878, 3285377520) in
  hexWord a +:+ hexWord b +:+ hexWord c +:+ hexWord d +:+ hexWord e.

End Sha1.

(** Base64 to lower-case hexadecimal, as
    [Buffer.from(s, 'base64').toString('hex')] gives it: the digits of
    either alphabet up to the first character that is none (the padding,
    for one). *)
Module Base64.

Local Open Scope N_scope.

Definition digit (c : ascii) : option N :=
  let n := N_of_ascii c in
  if (65 <=? n) && (n <=? 90) then Some (n - 65)
  else if (97 <=? n) && (n <=? 122) then Some (n - 71)
  else if (48 <=? n) && (n <=? 57) then Some (n + 4)
  else if (n =? 43) || (n =? 45) then Some 62
  else if (n =? 47) || (n =? 95) then Some 63
  else None.

Fixpoint digits (s : string) : list N :=
  match s with
  | EmptyString => []
  | String c s' =>
      match digit c with
      | Some d => d :: digits s'
      | None => []
      end
  end.

Fixpoint bytes (ds : list N) : list N :=
  match ds with
  | a :: b :: c :: d :: rest =>
      (a * 4 + b / 16) :: ((b mod 16) * 16 + c / 4) :: ((c mod 4) * 64 + d) :: bytes rest
  | [a; b; c] => [a * 4 + b / 16; (b mod 16) * 16 + c / 4]
  | [a; b] => [a * 4 + b / 16]
  | _ => []
  end.

Definition hexByte (n : N) (s : string) : string :=
  String (Sha1.hexDigit (Z.of_N (n / 16))) (String (Sha1.hexDigit (Z.of_N (n mod 16))) s).

Definition toHex (s : string) : string := fold_right hexByte EmptyString (bytes (digits s)).

End Base64.

Module Sample.

(** The bytes of a (stand-in) tarball and their SHA-1. *)
Definition tarball : list Byte.byte := list_byte_of_string "abc".

Definition sha1 : string := "a9993e364706816aba3e25717850c26c9cd0d89d".

Definition head : string := "3b18e512dba79e4c8300dd08aeb37f8e728b8dad".

Definition otherHead : string := "e69de29bb2d1d6434b8b29ae775ad8c2e48c5391".

(** Registry records: [a] and [b] depend on each other; [a] is hosted on
    github, [b] elsewhere. *)
Definition a : Info.t :=
  {| Info.name := Some "a";
     Info.version := Some "1.0.0";
     Info.dist := Some {| Info.integrity := None; Info.shasum := Some sha1;
                          Info.tarball := Some "https://registry.npmjs.org/a/-/a-1.0.0.tgz" |};
     Info.repository := Some {| Info.type := Some "git";
                                Info.url := Some "git+https://github.com/sample/a.git" |};
     Info.gitHead := Some head;
     Info.dependencies := Some [("b", "^1.0.0")] |}.

Definition b : Info.t :=
  {| Info.name := Some "b";
     Info.version := Some "1.0.0";
     Info.dist := Some {| Info.integrity := None; Info.shasum := Some sha1;
                          Info.tarball := Some "https://registry.npmjs.org/b/-/b-1.0.0.tgz" |};
     Info.repository := Some {| Info.type := Some "git";
                                Info.url := Some "https://git.example.org/sample/b.git" |};
     Info.gitHead := Some head;
     Info.dependencies := Some [("a", "^1.0.0")] |}.

(** A record whose legacy checksum is the SHA-1 of the tarball in
    upper-case letters. *)
Definition upper : Info.t :=
  {| Info.name := Some "upper";
     Info.version := Some "1.0.0";
     Info.dist := Some {| Info.integrity := None;
                          Info.shasum := Some "A9993E364706816ABA3E25717850C26C9CD0D89D";
                          Info.tarball := Some "https://registry.npmjs.org/upper/-/upper-1.0.0.tgz" |};
     Info.repository := Some {| Info.type := Some "git";
                                Info.url := Some "git+https://github.com/sample/upper.git" |};
     Info.gitHead := Some head;
     Info.dependencies := None |}.

(** A record published without [gitHead]. *)
Definition unrecorded : Info.t :=
  {| Info.name := Some "unrecorded";
     Info.version := Some "1.0.0";
     Info.dist := Some {| Info.integrity := None; Info.shasum := Some sha1;
                          Info.tarball :=
                            Some "https://registry.npmjs.org/unrecorded/-/unrecorded-1.0.0.tgz" |};
     Info.repository := Some {| Info.type := Some "git";
                                Info.url := Some "git+https://github.com/sample/unrecorded.git" |};
     Info.gitHead := None;
     Info.dependencies := None |}.

(** The texts that stand for the JSON of the records. *)
Definition documents : list (string * Json) :=
  [("{ name: 'a', version: '1.0.0' }", JObject a);
   ("{ name: 'b', version: '1.0.0' }", JObject b);
   ("{ name: 'upper', version: '1.0.0' }", JObject upper);
   ("{ name: 'unrecorded', version: '1.0.0' }", JObject unrecorded)].

Fixpoint find (text : string) (docs : list (string * Json)) : JsError + Json :=
  match docs with
  | [] => inl (newError "Unexpected token in JSON")
  | (t, j) :: docs => if String.eqb t text then inr j else find text docs
  end.

Definition platform : Platform :=
  {| JSON_parse := fun text => find text documents;
     base64ToHex := Base64.toHex;
     createHash := fun alg =>
       if String.eqb alg "sha1" then inr Sha1.digest
       else inl (newError "Digest method not supported");
     Path_resolve := fun p => p;
     Path_join := fun p q => p +:+ "/" +:+ q;
     inspect := fun _ => "{ ... }" |}.

(** What a sample world lets vary: the outcome of the git commands, of the
    diff, of the removal of the scratch directory and of the registry
    lookup of [b]. *)
Record Knobs : Type :=
  { cloneV : JsError + string;
    cloneBare : JsError + string;
    revParse : JsError + string;
    gitInit : JsError + string;
    gitFetch : JsError + string;
    diff : JsError + string;
    remove : JsError + string;
    viewB : JsError + string }.

(** Everything succeeds: the tag [v1.0.0] exists and points at the
    recorded commit, the trees are equal. *)
Definition fine : Knobs :=
  {| cloneV := inr "";
     cloneBare := inr "";
     revParse := inr (head +:+ NL);
     gitInit := inr "";
     gitFetch := inr "";
     diff := inr "";
     remove := inr "";
     viewB := inr "{ name: 'b', version: '1.0.0' }" |}.

Definition failed (message : string) (status : Z) (out : string) : JsError :=
  Error message (ExitCode status) (Some out).

Definition noSuchTag (ref : string) : JsError :=
  failed ("Command failed: git clone: Remote branch " +:+ ref +:+ " not found in upstream origin")
         128 "".

Definition initRefused : JsError :=
  failed "Command failed: git init: cannot mkdir .git: Permission denied" 1 "".

(** No tag for the version, neither [v1.0.0] nor [1.0.0]. *)
Definition noTags : Knobs :=
  {| cloneV := inl (noSuchTag "v1.0.0");
     cloneBare := inl (noSuchTag "1.0.0");
     revParse := revParse fine; gitInit := inr ""; gitFetch := inr "";
     diff := inr ""; remove := inr ""; viewB := viewB fine |}.

(** No tag, and [git init] fails in the fallback. *)
Definition noTagsNoInit : Knobs :=
  {| cloneV := inl (noSuchTag "v1.0.0");
     cloneBare := inl (noSuchTag "1.0.0");
     revParse := revParse fine; gitInit := inl initRefused; gitFetch := inr "";
     diff := inr ""; remove := inr ""; viewB := viewB fine |}.

(** The tag points at another commit than the recorded one. *)
Definition movedTag : Knobs :=
  {| cloneV := inr ""; cloneBare := inr "";
     revParse := inr (otherHead +:+ NL); gitInit := inr ""; gitFetch := inr "";
     diff := inr ""; remove := inr ""; viewB := viewB fine |}.

(** The tag points at another commit, and the package has a file that
    the git tree lacks, besides one that is in the git tree only. *)
Definition extraFile : Knobs :=
  {| cloneV := inr ""; cloneBare := inr "";
     revParse := inr (otherHead +:+ NL); gitInit := inr ""; gitFetch := inr "";
     diff := inl (failed "Command failed: diff -r -u --strip-trailing-cr git package" 1
                         ("Only in git: test" +:+ NL +:+ "Only in package: extra.js" +:+ NL));
     remove := inr ""; viewB := viewB fine |}.

(** The git tree has a directory of tests that the package lacks, and
    nothing else differs. *)
Definition testsLeftOut : Knobs :=
  {| cloneV := inr ""; cloneBare := inr "";
     revParse := revParse fine; gitInit := inr ""; gitFetch := inr "";
     diff := inl (failed "Command failed: diff -r -u --strip-trailing-cr git package" 1
                         ("Only in git: test" +:+ NL));
     remove := inr ""; viewB := viewB fine |}.

Definition notFound : JsError :=
  failed "Command failed: npm view -json b@latest: npm ERR! code E404" 1 "".

(** The registry has no record of [b]. *)
Definition noRecordOfB : Knobs :=
  {| cloneV := inr ""; cloneBare := inr "";
     revParse := revParse fine; gitInit := inr ""; gitFetch := inr "";
     diff := inr ""; remove := inr ""; viewB := inl notFound |}.

(** A validator for [a@latest] and one for [b@latest], as [validatePkg]
    creates them. *)
Definition validatorA : Validator :=
  {| package := "a"; version := "latest"; loose := false; _details := None |}.

Definition validatorB : Validator :=
  {| package := "b"; version := "latest"; loose := false; _details := None |}.

Definition validatorUpper : Validator :=
  {| package := "upper"; version := "latest"; loose := false; _details := None |}.

Definition validatorUnrecorded : Validator :=
  {| package := "unrecorded"; version := "latest"; loose := false; _details := None |}.

Definition answer (k : Knobs) {R} (c : Cmd R) : JsError + R :=
  match c in Cmd R return JsError + R with
  | ExecFile "npm" ["view"; "-json"; query] _ =>
      if String.prefix "a@" query then inr "{ name: 'a', version: '1.0.0' }"
      else if String.prefix "b@" query then viewB k
      else if String.prefix "upper@" query then inr "{ name: 'upper', version: '1.0.0' }"
      else if String.prefix "unrecorded@" query
      then inr "{ name: 'unrecorded', version: '1.0.0' }"
      else inr ""
  | ExecFile "git" ["clone"; _; _; _; _; _; ref; _] _ =>
      if String.prefix "v" ref then cloneV k else cloneBare k
  | ExecFile "git" ("rev-parse" :: _) _ => revParse k
  | ExecFile "git" ("init" :: _) _ => gitInit k
  | ExecFile "git" ("fetch" :: _) _ => gitFetch k
  | ExecFile "diff" _ _ => diff k
  | ExecFile "rm" ["-rf"; "/tmp/1-2-3"] _ => remove k
  | ExecFile _ _ _ => inr ""
  | FsMkdir _ => inr tt
  | WreckRequest _ _ => inr 200%Z
  | ResponseEvents _ => inr (Ended tarball)
  | TarExit _ => inr (Some 0%Z)
  | OsTmpdir => inr "/tmp"
  | UniqueFilename path => inr (path +:+ "/1-2-3")
  | ConsoleError _ => inr tt
  | ConsoleLog _ => inr tt
  | Exiting => inr false
  end.

(** A world without a state of its own that answers by [answer k]; of
    two pending operations the first one settles first. *)
Definition world (k : Knobs) : Outside unit :=
  {| respond := fun R c w => (w, answer k c);
     pick := fun w => (w, true) |}.

(** The version 1.1.0 of [a], and a record that has a name and a version
    only. *)
Definition newer : Info.t :=
  {| Info.name := Some "a";
     Info.version := Some "1.1.0";
     Info.dist := Some {| Info.integrity := None; Info.shasum := Some sha1;
                          Info.tarball := Some "https://registry.npmjs.org/a/-/a-1.1.0.tgz" |};
     Info.repository := Some {| Info.type := Some "git";
                                Info.url := Some "git+https://github.com/sample/a.git" |};
     Info.gitHead := Some otherHead;
     Info.dependencies := None |}.

(** A record with the SHA-1 of the tarball as its [integrity], and a
    legacy checksum that is another one. *)
Definition signed : Info.t :=
  {| Info.name := Some "signed";
     Info.version := Some "1.0.0";
     Info.dist := Some {| Info.integrity := Some "sha1-qZk+NkcGgWq6PiVxeFDCbJzQ2J0=";
                          Info.shasum := Some "da39a3ee5e6b4b0d3255bfef95601890afd80709";
                          Info.tarball :=
                            Some "https://registry.npmjs.org/signed/-/signed-1.0.0.tgz" |};
     Info.repository := Some {| Info.type := Some "git";
                                Info.url := Some "git+https://github.com/sample/signed.git" |};
     Info.gitHead := Some head;
     Info.dependencies := None |}.

Definition bare : Info.t :=
  {| Info.name := Some "bare";
     Info.version := Some "0.0.1";
     Info.dist := Some {| Info.integrity := None; Info.shasum := None; Info.tarball := None |};
     Info.repository := None;
     Info.gitHead := None;
     Info.dependencies := None |}.

(** A platform whose [JSON.parse] also reads an array of the two versions
    of [a] and the records [bare] and [signed]. *)
Definition catalogue : Platform :=
  {| JSON_parse := fun text =>
       if String.eqb text "[ { name: 'a', version: '1.0.0' }, { name: 'a', version: '1.1.0' } ]"
       then inr (JArray [a; newer])
       else if String.eqb text "{ name: 'bare', version: '0.0.1' }" then inr (JObject bare)
       else if String.eqb text "{ name: 'signed', version: '1.0.0' }" then inr (JObject signed)
       else find text documents;
     base64ToHex := Base64.toHex;
     createHash := fun alg =>
       if String.eqb alg "sha1" then inr Sha1.digest
       else inl (newError "Digest method not supported");
     Path_resolve := fun p => p;
     Path_join := fun p q => p +:+ "/" +:+ q;
     inspect := fun _ => "{ ... }" |}.

(** A world over [answer knobs] in which, besides, [npm view] prints
    [view] for every query (when given), the download answers with
    [status], [mkdir] ends with [made], and the flag [exiting] reads
    [sigint]. *)
Record Stage : Type :=
  { knobs : Knobs;
    view : option (JsError + string);
    status : Z;
    made : JsError + unit;
    sigint : bool }.

Definition onStage (g : Stage) {R} (c : Cmd R) : JsError + R :=
  match c in Cmd R return JsError + R with
  | ExecFile command args cwd =>
      match view g with
      | Some printed =>
          if String.eqb command "npm" then printed
          else answer (knobs g) (ExecFile command args cwd)
      | None => answer (knobs g) (ExecFile command args cwd)
      end
  | FsMkdir _ => made g
  | WreckRequest _ _ => inr (status g)
  | Exiting => inr (sigint g)
  | ResponseEvents url => answer (knobs g) (ResponseEvents url)
  | TarExit cwd => answer (knobs g) (TarExit cwd)
  | OsTmpdir => answer (knobs g) OsTmpdir
  | UniqueFilename path => answer (knobs g) (UniqueFilename path)
  | ConsoleError text => answer (knobs g) (ConsoleError text)
  | ConsoleLog items => answer (knobs g) (ConsoleLog items)
  end.

Definition staged (g : Stage) : Outside unit :=
  {| respond := fun R c w => (w, onStage g c);
     pick := fun w => (w, true) |}.

(** The stage on which nothing differs from [world k]. *)
Definition plain (k : Knobs) : Stage :=
  {| knobs := k; view := None; status := 200; made := inr tt; sigint := false |}.

End Sample.

(** * Properties *)

(** ** The definitions on small inputs *)

Example split_url :
  Js.split ":" (Some 2) "git+https://github.com/sample/a.git"
  = ["git+https"; "//github.com/sample/a.git"].
Proof. reflexivity. Qed.

Example split_limit_drops_the_rest :
  Js.split "-" (Some 2) "sha512-AAAA-BBBB" = ["sha512"; "AAAA"].
Proof. reflexivity. Qed.

Example split_without_separator : Js.split "-" (Some 2) "sha512" = ["sha512"].
Proof. reflexivity. Qed.

Example trim_both_ends : Js.trim ("  3b18e5 " +:+ NL) = "3b18e5".
Proof. reflexivity. Qed.

Example isGithub_only_with_scheme_and_host :
  isGithub "git+https://github.com/sample/a.git" = true
  /\ isGithub "git+ssh://git@github.com/sample/a.git" = false
  /\ isGithub "https://git.example.org/sample/b.git" = false.
Proof. repeat split. Qed.

Example cloneUrl_rewrites_git_schemes :
  cloneUrl "git+https://github.com/sample/a.git" = "https://github.com/sample/a.git"
  /\ cloneUrl "git://github.com/sample/a.git" = "https://github.com/sample/a.git"
  /\ cloneUrl "https://git.example.org/sample/b.git" = "https://git.example.org/sample/b.git".
Proof. repeat split. Qed.

Example filterDiff_drops_git_only_lines :
  filterDiff ("Only in git: test" +:+ NL +:+ "Only in package: extra.js" +:+ NL)
  = "Only in package: extra.js".
Proof. reflexivity. Qed.

Example sha1_test_vectors :
  Sha1.digest [] = "da39a3ee5e6b4b0d3255bfef95601890afd80709"
  /\ Sha1.digest (list_byte_of_string "abc") = "a9993e364706816aba3e25717850c26c9cd0d89d"
  /\ Sha1.digest (list_byte_of_string
                    "abcdbcdecdefdefgefghfghighijhijkijkljklmklmnlmnomnopnopq")
     = "84983e441c3bd26ebaae4aa1f95129e5e54670f1".
Proof. vm_compute. repeat split. Qed.

(** ** How [run] goes through the combinators *)

(** Induction over a program, the result type fixed: the call that
    [Detach] leaves running is not gone into. *)
Lemma Prog_uniform_ind {A} (P : Prog A -> Prop) :
  (forall a, P (Ret a)) ->
  (forall e, P (Throw e)) ->
  (forall R (c : Cmd R) k, (forall o, P (k o)) -> P (Call c k)) ->
  (forall r d k, (forall t, P (k t)) -> P (New r d k)) ->
  (forall k, (forall b, P (k b)) -> P (Pick k)) ->
  (forall q k, P k -> P (Detach q k)) ->
  forall p, P p.
Proof.
  intros HRet HThrow HCall HNew HPick HDetach.
  refine (fix IH (p : Prog A) : P p :=
            match p with
            | Ret a => HRet a
            | Throw e => HThrow e
            | Call c k => HCall _ c k (fun o => IH (k o))
            | New r d k => HNew r d k (fun t => IH (k t))
            | Pick k => HPick k (fun b => IH (k b))
            | Detach q k => HDetach q k (IH k)
            end).
Qed.

Section RunLemmas.
Context {W : Type} {outside : Outside W}.
Implicit Types s : RunState (W := W).

Lemma run_bind {A B} (p : Prog A) (f : A -> Prog B) s :
  run (bind p f) s =
  match run p s with
  | (s', inl e) => (s', inl e)
  | (s', inr a) => run (f a) s'
  end.
Proof.
  revert s; induction p as [a|e|R c k IH|r d k IH|k IH|q k IH] using Prog_uniform_ind;
    intros s; simpl.
  - done.
  - done.
  - destruct (respond c (world s)) as [w o]. apply IH.
  - apply IH.
  - destruct (pick (world s)) as [w b]. apply IH.
  - apply IH.
Qed.

Lemma run_try_catch {A} (p : Prog A) (h : JsError -> Prog A) s :
  run (try_catch p h) s =
  match run p s with
  | (s', inl e) => run (h e) s'
  | (s', inr a) => (s', inr a)
  end.
Proof.
  revert s; induction p as [a|e|R c k IH|r d k IH|k IH|q k IH] using Prog_uniform_ind;
    intros s; simpl.
  - done.
  - done.
  - destruct (respond c (world s)) as [w o]. apply IH.
  - apply IH.
  - destruct (pick (world s)) as [w b]. apply IH.
  - apply IH.
Qed.

Lemma run_finally {A} (p : Prog A) (f : Prog unit) s :
  run (finally p f) s =
  match run p s with
  | (s', r) =>
      match run f s' with
      | (s'', inl e) => (s'', inl e)
      | (s'', inr _) => (s'', r)
      end
  end.
Proof.
  revert s; induction p as [a|e|R c k IH|r d k IH|k IH|q k IH] using Prog_uniform_ind;
    intros s; simpl.
  - rewrite run_bind. by destruct (run f s) as [s'' [e'|[]]].
  - rewrite run_bind. by destruct (run f s) as [s'' [e'|[]]].
  - destruct (respond c (world s)) as [w o]. apply IH.
  - apply IH.
  - destruct (pick (world s)) as [w b]. apply IH.
  - apply IH.
Qed.

Lemma run_await {R} (c : Cmd R) s :
  run (await c) s =
  let '(w, o) := respond c (world s) in (settle s c w o, o).
Proof.
  unfold await; simpl. destruct (respond c (world s)) as [w [e|r]]; done.
Qed.

Lemma run_exec command args cwd s :
  run (exec command args cwd) s =
  let '(w, o) := respond (ExecFile command args cwd) (world s) in
  (settle s (ExecFile command args cwd) w o, o).
Proof. apply run_await. Qed.

Lemma run_assert condition message s :
  run (assert condition message) s =
  (s, if condition then inr tt else inl (newError message)).
Proof. by destruct condition. Qed.

End RunLemmas.

(** A run only adds to the trace and to the allocated objects. *)
Section RunGrows.
Context {W : Type} {outside : Outside W}.
Implicit Types s : RunState (W := W).

Lemma run_trace {A} (p : Prog A) s :
  exists added, trace (run p s).1 = trace s ++ added.
Proof.
  revert s; induction p as [a|e|R c k IH|r d k IH|k IH|q k IH] using Prog_uniform_ind;
    intros s; simpl.
  - exists []. by rewrite app_nil_r.
  - exists []. by rewrite app_nil_r.
  - destruct (respond c (world s)) as [w o].
    destruct (IH o (settle s c w o)) as [added ->].
    exists (entry c o :: added). simpl. by rewrite <- app_assoc.
  - apply (IH _ (allocate s)).
  - destruct (pick (world s)) as [w b].
    apply (IH b (chosen s w)).
  - apply (IH (leave s q)).
Qed.

Lemma run_allocated {A} (p : Prog A) s :
  allocated s <= allocated (run p s).1.
Proof.
  revert s; induction p as [a|e|R c k IH|r d k IH|k IH|q k IH] using Prog_uniform_ind;
    intros s; simpl.
  - done.
  - done.
  - destruct (respond c (world s)) as [w o]. apply (IH o (settle s c w o)).
  - specialize (IH (newTaint s r d) (allocate s)). simpl in IH. lia.
  - destruct (pick (world s)) as [w b].
    apply (IH b (chosen s w)).
  - apply (IH (leave s q)).
Qed.

End RunGrows.

(** ** The scratch directory of [check] *)

Section Scratch.
Context {platform : Platform} {W : Type} {outside : Outside W}.
Implicit Types s : RunState (W := W).

(** Once [check()] has created the directory that
    [Hoek.uniqueFilename(Os.tmpdir())] named, every run of it, whatever
    its result, performs [rm -rf] on that directory as the last command
    of the call itself; if the removal fails, its error is the result of
    the call.  What a call left running by [Promise.all] does
    afterwards is another matter. *)
Theorem check_removes_scratch_directory (this : Validator) s w1 tmp w2 tmpDir w3 :
  respond OsTmpdir (world s) = (w1, inr tmp) ->
  respond (UniqueFilename tmp) w1 = (w2, inr tmpDir) ->
  respond (FsMkdir tmpDir) w2 = (w3, inr tt) ->
  exists between removal,
    trace (run (check this) s).1 =
      trace s
      ++ [entry OsTmpdir (inr tmp); entry (UniqueFilename tmp) (inr tmpDir);
          entry (FsMkdir tmpDir) (inr tt)]
      ++ between
      ++ [{| command := event (ExecFile "rm" ["-rf"; tmpDir] None); failure := removal |}]
    /\ (forall e, removal = Some e -> (run (check this) s).2 = inl e).
Proof.
  intros Htmp Hname Hmkdir.
  destruct (run (check this) s) as [s' r] eqn:Hrun. simpl.
  unfold check in Hrun.
  rewrite run_bind, run_await, Htmp in Hrun; cbv beta iota in Hrun.
  rewrite run_bind, run_await in Hrun; simpl world in Hrun.
  rewrite Hname in Hrun; cbv beta iota in Hrun.
  rewrite run_bind, run_await in Hrun; simpl world in Hrun.
  rewrite Hmkdir in Hrun; cbv beta iota in Hrun.
  rewrite run_finally in Hrun.
  match type of Hrun with context [run ?body ?s0] =>
    destruct (run_trace body s0) as [between Hbetween];
    destruct (run body s0) as [s1 r1] end.
  simpl in Hbetween.
  rewrite run_bind, run_exec in Hrun.
  destruct (respond (ExecFile "rm" ["-rf"; tmpDir] None) (world s1)) as [w4 [e|out]];
    simpl in Hrun; injection Hrun as <- <-; simpl.
  - exists between, (Some e). split.
    + rewrite Hbetween. by rewrite <- !app_assoc.
    + by intros ? [= <-].
  - exists between, None. split.
    + rewrite Hbetween. by rewrite <- !app_assoc.
    + done.
Qed.

End Scratch.

(** ** What a program can return *)

Section Returns.
Context {W : Type} {outside : Outside W}.
Implicit Types s : RunState (W := W).

Lemma newTaint_not_clean s r d : Taint.clean (newTaint s r d) = false.
Proof. done. Qed.

Lemma returns_sound {A} (P : A -> Prop) p s s' a :
  returns P p -> run p s = (s', inr a) -> P a.
Proof.
  intros Hp; revert s; induction Hp as [a0 Ha|e|R c k _ IH|r d k _ IH|k _ IH|q k _ IH];
    intros s; simpl.
  - by intros [= _ <-].
  - done.
  - destruct (respond c (world s)) as [w o]. apply IH.
  - apply IH, newTaint_not_clean.
  - destruct (pick (world s)) as [w b]. apply IH.
  - apply IH.
Qed.

Lemma returns_weaken {A} (P Q : A -> Prop) p :
  (forall a, P a -> Q a) -> returns P p -> returns Q p.
Proof. intros HPQ; induction 1; constructor; auto. Qed.

Lemma returns_bind {A B} (Q : A -> Prop) (P : B -> Prop) p (f : A -> Prog B) :
  returns Q p -> (forall a, Q a -> returns P (f a)) -> returns P (bind p f).
Proof. intros Hp Hf; induction Hp; simpl; try (constructor; auto); auto. Qed.

Lemma returns_try_catch {A} (P : A -> Prop) p h :
  returns P p -> (forall e, returns P (h e)) -> returns P (try_catch p h).
Proof. intros Hp Hh; induction Hp; simpl; try (constructor; auto); auto. Qed.

Lemma returns_any {A} (p : Prog A) : returns (fun _ => True) p.
Proof. induction p using Prog_uniform_ind; constructor; auto. Qed.

End Returns.

(** ** The git reconciler *)

Section Reconciler.
Context {platform : Platform} {W : Type} {outside : Outside W}.
Implicit Types s : RunState (W := W).

Lemma gitRepositoryUrl_Some info url :
  gitRepositoryUrl info = Some url ->
  exists repo, Info.repository info = Some repo
    /\ Info.type repo = Some "git" /\ Info.url repo = Some url
    /\ Js.truthy (Info.url repo) = true.
Proof.
  unfold gitRepositoryUrl. destruct (Info.repository info) as [repo|]; [|done].
  destruct (bool_decide (Info.type repo = Some "git")) eqn:Ht; [|done].
  destruct (Js.truthy (Info.url repo)) eqn:Hu; [|done].
  simpl. intros Hurl. exists repo. by apply bool_decide_eq_true in Ht.
Qed.

(** After its checks, [fetchGitSource] is [reconcile]. *)
Lemma run_fetchGitSource this dst s s0 this' info url :
  validDst dst = true ->
  run (fetchDetails this) s = (s0, inr (this', info)) ->
  gitRepositoryUrl info = Some url ->
  run (fetchGitSource this dst) s = run (reconcile info url (Path_resolve dst)) s0.
Proof.
  intros Hdst Hinfo Hurl.
  destruct (gitRepositoryUrl_Some _ _ Hurl) as (repo & Hrepo & Htype & Hu & Htruthy).
  unfold fetchGitSource.
  rewrite run_bind, run_assert, Hdst; cbv beta iota.
  rewrite run_bind, Hinfo; cbv beta iota.
  rewrite Hrepo; simpl default.
  rewrite run_bind, run_assert, Htype, Htruthy, Hu.
  by rewrite bool_decide_eq_true_2.
Qed.

Lemma run_cloneByTag repoUrl version dst s :
  run (cloneByTag repoUrl version dst) s =
  let c1 := cloneCommand repoUrl ("v" +:+ version) dst in
  let c2 := cloneCommand repoUrl version dst in
  let '(w1, o1) := respond c1 (world s) in
  match o1 with
  | inr _ => (settle s c1 w1 o1, inr tt)
  | inl e1 =>
      let '(w2, o2) := respond c2 w1 in
      (settle (settle s c1 w1 o1) c2 w2 o2,
       match o2 with inr _ => inr tt | inl _ => inl e1 end)
  end.
Proof.
  unfold cloneByTag, gitClone, cloneCommand.
  rewrite run_try_catch, run_bind, run_exec.
  destruct (respond _ (world s)) as [w1 [e1|out1]]; [|done].
  rewrite run_try_catch, run_bind, run_exec. simpl world.
  destruct (respond _ w1) as [w2 [e2|out2]]; done.
Qed.


(** C6.  When the clone at [v<version>] fails with [e1] and the clone at
    [<version>] fails too, the tag stage throws [e1], whatever the second
    error [e2] is; and when the host is not github or the record has no
    [gitHead], [fetchGitSource] rejects with [e1] in the state reached by
    the two clones, no further command performed. *)
Theorem clone_failure_reports_first_error this dst s s0 this' info url e1 e2 w1 w2 :
  validDst dst = true ->
  run (fetchDetails this) s = (s0, inr (this', info)) ->
  gitRepositoryUrl info = Some url ->
  let repoUrl := cloneUrl url in
  let version := Js.show (Info.version info) in
  let dir := Path_resolve dst in
  let c1 := cloneCommand repoUrl ("v" +:+ version) dir in
  let c2 := cloneCommand repoUrl version dir in
  respond c1 (world s0) = (w1, inl e1) ->
  respond c2 w1 = (w2, inl e2) ->
  let s2 := settle (settle s0 c1 w1 (inl e1)) c2 w2 (inl e2) in
  run (cloneByTag repoUrl version dir) s0 = (s2, inl e1)
  /\ (isGithub url = false \/ Js.truthy (Info.gitHead info) = false ->
      run (fetchGitSource this dst) s = (s2, inl e1)).
Proof.
  intros Hdst Hinfo Hurl repoUrl version0 dir c1 c2 H1 H2 s2.
  assert (Htag : run (cloneByTag repoUrl version0 dir) s0 = (s2, inl e1)).
  { rewrite run_cloneByTag. cbv zeta. fold c1 c2. by rewrite H1, H2. }
  split; [done|]. intros Hskip.
  rewrite (run_fetchGitSource _ _ _ _ _ _ _ Hdst Hinfo Hurl).
  unfold reconcile. fold repoUrl version0 dir.
  rewrite run_bind, run_try_catch, run_bind, Htag. cbv beta iota.
  by destruct Hskip as [-> | ->]; simpl; rewrite ?orb_true_r.
Qed.

(** C5, as the code has it.  When the fallback by sha is entered (the tag
    stage or the reading of HEAD threw, the host is github and the
    record has a [gitHead]) and [fetchGitSource] rejects with [e], then
    the last command performed is one of the six fallback steps and [e]
    is the error that step failed with. *)
Theorem sha_fallback_failure_is_the_failing_step this dst s s0 this' info url s1 err s' e :
  validDst dst = true ->
  run (fetchDetails this) s = (s0, inr (this', info)) ->
  gitRepositoryUrl info = Some url ->
  let repoUrl := cloneUrl url in
  let version := Js.show (Info.version info) in
  let dir := Path_resolve dst in
  run (cloneByTag repoUrl version dir ;; verifyHead (Info.gitHead info) dir) s0
    = (s1, inl err) ->
  isGithub url = true ->
  Js.truthy (Info.gitHead info) = true ->
  run (fetchGitSource this dst) s = (s', inl e) ->
  exists c,
    In c (fallbackCommands repoUrl (Js.show (Info.gitHead info)) dir)
    /\ last (trace s') = Some {| command := c; failure := Some e |}.
Proof.
  intros Hdst Hinfo Hurl repoUrl version0 dir Htry Hgithub Hhead Hrun.
  rewrite (run_fetchGitSource _ _ _ _ _ _ _ Hdst Hinfo Hurl) in Hrun.
  unfold reconcile in Hrun. fold repoUrl version0 dir in Hrun.
  rewrite run_bind, run_try_catch, Htry in Hrun. cbv beta iota in Hrun.
  rewrite Hgithub, Hhead in Hrun. simpl negb in Hrun. simpl orb in Hrun. cbv iota in Hrun.
  unfold fetchBySha in Hrun.
  repeat
    (rewrite run_bind, ?run_exec, ?run_await in Hrun; simpl world in Hrun;
     match type of Hrun with
     | context [respond ?c ?w] => destruct (respond c w) as [? [?|?]]
     end;
     cbv beta iota in Hrun;
     [ injection Hrun as <- <-; eexists; split;
       [ | simpl trace; apply last_snoc ];
       unfold fallbackCommands, removeCommand, event; simpl; tauto
     | ]).
  done.
Qed.

(** C2.  After a successful clone by tag, when [git rev-parse] prints
    [out], the call has one of three results according to the recorded
    [gitHead] (present means truthy, as line 202 tests it): the shared
    [Taint.none] when it is present and equal to the trimmed [out]; a new
    taint [sha-mismatch] with both commits when it is present and
    differs; a new taint [sha-missing] with the commit found when it is
    absent. *)
Theorem verified_head_outcomes this dst s s0 this' info url s1 w2 out :
  validDst dst = true ->
  run (fetchDetails this) s = (s0, inr (this', info)) ->
  gitRepositoryUrl info = Some url ->
  let repoUrl := cloneUrl url in
  let version := Js.show (Info.version info) in
  let dir := Path_resolve dst in
  run (cloneByTag repoUrl version dir) s0 = (s1, inr tt) ->
  respond (revParseCommand dir) (world s1) = (w2, inr out) ->
  let gitRev := Js.trim out in
  let gitHead := Info.gitHead info in
  let s2 := settle s1 (revParseCommand dir) w2 (inr out) in
  (Js.truthy gitHead = true -> gitHead = Some gitRev ->
   run (fetchGitSource this dst) s = (s2, inr Taint.none))
  /\ (Js.truthy gitHead = true -> gitHead <> Some gitRev ->
      run (fetchGitSource this dst) s =
        (allocate s2, inr (newTaint s2 (Some "sha-mismatch") (Some (Taint.Sha gitHead gitRev)))))
  /\ (Js.truthy gitHead = false ->
      run (fetchGitSource this dst) s =
        (allocate s2, inr (newTaint s2 (Some "sha-missing") (Some (Taint.Sha gitHead gitRev))))).
Proof.
  intros Hdst Hinfo Hurl repoUrl version0 dir Hclone Hrev gitRev gitHead s2.
  rewrite (run_fetchGitSource _ _ _ _ _ _ _ Hdst Hinfo Hurl).
  unfold reconcile. fold repoUrl version0 dir gitHead.
  rewrite run_bind, run_try_catch, run_bind, Hclone. cbv beta iota.
  unfold verifyHead. rewrite run_bind, run_exec. fold (revParseCommand dir).
  rewrite Hrev. cbv beta iota zeta. fold gitRev s2.
  split; [|split].
  - intros Htruthy Heq. rewrite (bool_decide_eq_true_2 _ Heq).
    rewrite Heq in Htruthy. simpl in Htruthy. by rewrite Htruthy.
  - intros Htruthy Hne. rewrite (bool_decide_eq_false_2 _ Hne), Htruthy.
    by rewrite orb_true_r.
  - intros Hfalsy. rewrite Hfalsy.
    destruct (decide (gitHead = Some gitRev)) as [Heq|Hne].
    + rewrite Heq in Hfalsy. simpl in Hfalsy. by rewrite Hfalsy.
    + rewrite (bool_decide_eq_false_2 _ Hne). by rewrite orb_true_r.
Qed.

(** Every [Taint] that [fetchGitSource] returns is [Taint.none] or is not
    clean. *)
Lemma fetchGitSource_returns this dst :
  returns (fun t => t = Taint.none \/ Taint.clean t = false) (fetchGitSource this dst).
Proof.
  unfold fetchGitSource.
  eapply returns_bind; [apply returns_any|]; intros _ _.
  eapply returns_bind; [apply returns_any|]; intros [_ info] _.
  eapply returns_bind; [apply returns_any|]; intros _ _.
  unfold reconcile.
  eapply returns_bind with (Q := fun r => forall t, r = Some t -> Taint.clean t = false).
  - apply returns_try_catch.
    + eapply returns_bind; [apply returns_any|]; intros _ _.
      unfold verifyHead. eapply returns_bind; [apply returns_any|]; intros gitRev _.
      destruct (_ || _).
      * constructor; intros t Ht. constructor. by intros ? [= <-].
      * by constructor.
    + intros err. destruct (_ || _); [constructor|].
      unfold fetchBySha.
      do 6 (eapply returns_bind; [apply returns_any|]; intros _ _).
      constructor; intros t Ht. constructor. by intros ? [= <-].
  - intros [t|] Ht; constructor; [right; by apply Ht | by left].
Qed.

(** C10.  [clean()] holds of a taint exactly when it is the object
    [Taint.none] (same address); a taint constructed apart with no reason
    and no details has the fields of [Taint.none] and is not clean; and a
    taint returned by [fetchGitSource] is [Taint.none] itself or is not
    clean. *)
Theorem clean_is_identity_with_none :
  (forall t, Taint.clean t = true <-> Taint.ref t = Taint.ref Taint.none)
  /\ (forall s, exists t,
        (run (New None None Ret) s).2 = inr t
        /\ Taint.reason t = Taint.reason Taint.none
        /\ Taint.details t = Taint.details Taint.none
        /\ Taint.clean t = false)
  /\ (forall this dst s s' t,
        run (fetchGitSource this dst) s = (s', inr t) ->
        (Taint.clean t = true -> t = Taint.none)
        /\ (t <> Taint.none -> Taint.clean t = false)).
Proof.
  split; [|split].
  - intros t. unfold Taint.clean. apply Nat.eqb_eq.
  - intros s. by exists (newTaint s None None).
  - intros this dst s s' t Hrun.
    destruct (returns_sound _ _ _ _ _ (fetchGitSource_returns this dst) Hrun) as [->|Hc].
    + done.
    + split; [congruence | done].
Qed.

End Reconciler.

(** ** The reconciler on the sample worlds *)

Section ReconcilerSamples.
#[local] Existing Instance Sample.platform.

(** [b] is not on github: without tags the first clone's error is the
    result. *)
Lemma clone_failure_reports_first_error_witness :
  let outside := Sample.world Sample.noTags in
  validDst "/tmp/1-2-3/git" = true
  /\ gitRepositoryUrl Sample.b = Some "https://git.example.org/sample/b.git"
  /\ isGithub "https://git.example.org/sample/b.git" = false
  /\ (run (fetchGitSource Sample.validatorB "/tmp/1-2-3/git") (initial tt)).2
     = inl (Sample.noSuchTag "v1.0.0").
Proof.
  intros outside. split; [reflexivity|]. split; [reflexivity|]. split; [reflexivity|].
  edestruct (clone_failure_reports_first_error (outside := outside)
               Sample.validatorB "/tmp/1-2-3/git" (initial tt)) as [_ Hreject];
    [reflexivity .. |].
  rewrite Hreject; [reflexivity | left; reflexivity].
Defined.

(** [a] is on github and records a commit: without tags the fallback is
    entered, and when [git init] fails there, the result is the error of
    [git init], not the error of the first clone. *)
Lemma sha_fallback_failure_is_not_the_clone_error :
  let outside := Sample.world Sample.noTagsNoInit in
  (respond (cloneCommand "https://github.com/sample/a.git" "v1.0.0" "/tmp/1-2-3/git") tt).2
    = inl (Sample.noSuchTag "v1.0.0")
  /\ (run (fetchGitSource Sample.validatorA "/tmp/1-2-3/git") (initial tt)).2
     = inl Sample.initRefused
  /\ Sample.initRefused <> Sample.noSuchTag "v1.0.0".
Proof. intros outside. split; [reflexivity|]. split; [reflexivity|]. discriminate. Qed.

Lemma sha_fallback_failure_is_the_failing_step_witness :
  let outside := Sample.world Sample.noTagsNoInit in
  let s' := (run (fetchGitSource Sample.validatorA "/tmp/1-2-3/git") (initial tt)).1 in
  isGithub "git+https://github.com/sample/a.git" = true
  /\ Js.truthy (Info.gitHead Sample.a) = true
  /\ exists c,
       In c (fallbackCommands "https://github.com/sample/a.git" Sample.head "/tmp/1-2-3/git")
       /\ last (trace s') = Some {| command := c; failure := Some Sample.initRefused |}.
Proof.
  intros outside s'. split; [reflexivity|]. split; [reflexivity|].
  refine (sha_fallback_failure_is_the_failing_step (outside := outside)
            Sample.validatorA "/tmp/1-2-3/git" (initial tt) _ _
            Sample.a "git+https://github.com/sample/a.git" _ _ s' Sample.initRefused
            _ _ _ _ _ _ _);
    reflexivity.
Defined.

(** The tag of [a] on the recorded commit, and on another one; the tag
    of a package that records no commit. *)
Lemma verified_head_outcomes_witness :
  (let outside := Sample.world Sample.fine in
   (run (fetchGitSource Sample.validatorA "/tmp/1-2-3/git") (initial tt)).2
   = inr Taint.none)
  /\ (let outside := Sample.world Sample.movedTag in
      (run (fetchGitSource Sample.validatorA "/tmp/1-2-3/git") (initial tt)).2
      = inr {| Taint.ref := 1; Taint.reason := Some "sha-mismatch";
               Taint.details := Some (Taint.Sha (Some Sample.head) Sample.otherHead) |})
  /\ (let outside := Sample.world Sample.fine in
      (run (fetchGitSource Sample.validatorUnrecorded "/tmp/1-2-3/git") (initial tt)).2
      = inr {| Taint.ref := 1; Taint.reason := Some "sha-missing";
               Taint.details := Some (Taint.Sha None Sample.head) |}).
Proof.
  split; [|split]; intros outside.
  - edestruct (verified_head_outcomes (outside := outside)
                 Sample.validatorA "/tmp/1-2-3/git" (initial tt)) as (Hnone & _ & _);
      [reflexivity .. |].
    rewrite Hnone; reflexivity.
  - edestruct (verified_head_outcomes (outside := outside)
                 Sample.validatorA "/tmp/1-2-3/git" (initial tt)) as (_ & Hmismatch & _);
      [reflexivity .. |].
    rewrite Hmismatch; [reflexivity | reflexivity | discriminate].
  - edestruct (verified_head_outcomes (outside := outside)
                 Sample.validatorUnrecorded "/tmp/1-2-3/git" (initial tt)) as (_ & _ & Hmissing);
      [reflexivity .. |].
    rewrite Hmissing; reflexivity.
Defined.

(** The taint of the moved tag is not [Taint.none] and is not clean. *)
Lemma clean_is_identity_with_none_witness :
  let outside := Sample.world Sample.movedTag in
  let t := {| Taint.ref := 1; Taint.reason := Some "sha-mismatch";
              Taint.details := Some (Taint.Sha (Some Sample.head) Sample.otherHead) |} in
  (run (fetchGitSource Sample.validatorA "/tmp/1-2-3/git") (initial tt)).2 = inr t
  /\ Taint.clean t = false.
Proof.
  intros outside t. split; [reflexivity|].
  destruct (clean_is_identity_with_none (outside := outside)) as (_ & _ & Hreturned).
  eapply (Hreturned Sample.validatorA "/tmp/1-2-3/git" (initial tt)); [|discriminate].
  apply surjective_pairing.
Defined.

Lemma check_removes_scratch_directory_witness :
  let outside := Sample.world Sample.fine in
  let s' := (run (check Sample.validatorA) (initial tt)).1 in
  respond OsTmpdir tt = (tt, inr "/tmp")
  /\ respond (UniqueFilename "/tmp") tt = (tt, inr "/tmp/1-2-3")
  /\ respond (FsMkdir "/tmp/1-2-3") tt = (tt, inr tt)
  /\ exists between removal,
       trace s' =
         [entry OsTmpdir (inr "/tmp"); entry (UniqueFilename "/tmp") (inr "/tmp/1-2-3");
          entry (FsMkdir "/tmp/1-2-3") (inr tt)]
         ++ between
         ++ [{| command := event (removeCommand "/tmp/1-2-3"); failure := removal |}]
       /\ (forall e, removal = Some e -> (run (check Sample.validatorA) (initial tt)).2 = inl e).
Proof.
  intros outside s'. split; [reflexivity|]. split; [reflexivity|]. split; [reflexivity|].
  apply (check_removes_scratch_directory (outside := outside)
           Sample.validatorA (initial tt) tt "/tmp" tt "/tmp/1-2-3" tt); reflexivity.
Defined.

End ReconcilerSamples.

(** ** Trimming, splitting and joining *)

Section Strings.
Implicit Types s t u : string.
#[local] Arguments String.append !s1 s2 : simpl nomatch.

Lemma append_assoc s t u : (s +:+ t) +:+ u = s +:+ (t +:+ u).
Proof. induction s as [|c s IH]; simpl; congruence. Qed.

Lemma append_empty_r s : s +:+ "" = s.
Proof. induction s as [|c s IH]; simpl; congruence. Qed.

Lemma append_empty s t : s +:+ t = "" -> s = "" /\ t = "".
Proof. by destruct s. Qed.

Lemma trimStart_head s c t : Js.trimStart s = String c t -> Js.isSpace c = false.
Proof.
  induction s as [|c' s IH]; simpl; [done|].
  destruct (Js.isSpace c') eqn:Hc'; [done|]. by intros [= <- _].
Qed.

Lemma trimStart_split s : exists w, blank w /\ s = w +:+ Js.trimStart s.
Proof.
  induction s as [|c s (w & Hw & IH)]; simpl.
  - by exists "".
  - destruct (Js.isSpace c) eqn:Hc.
    + exists (String c w). split; [unfold blank; simpl; by rewrite Hc|].
      simpl. by rewrite <- IH.
    + by exists "".
Qed.

Lemma trimStart_blank_app w s : blank w -> Js.trimStart (w +:+ s) = Js.trimStart s.
Proof.
  unfold blank. induction w as [|c w IH]; simpl; [done|].
  destruct (Js.isSpace c); [done | discriminate].
Qed.

Lemma trimEnd_unfold c s :
  Js.trimEnd (String c s) =
  match Js.trimEnd s with
  | "" => if Js.isSpace c then "" else String c ""
  | r => String c r
  end.
Proof. done. Qed.

Lemma trimEnd_cons c s :
  Js.isSpace c = false -> Js.trimEnd (String c s) = String c (Js.trimEnd s).
Proof. intros Hc. simpl. rewrite Hc. by destruct (Js.trimEnd s). Qed.

Lemma trimEnd_split s : exists w, s = Js.trimEnd s +:+ w.
Proof.
  induction s as [|c s [w IH]]; simpl.
  - by exists "".
  - destruct (Js.trimEnd s) as [|c' r] eqn:Hr.
    + destruct (Js.isSpace c).
      * by exists (String c s).
      * exists s. done.
    + exists w. simpl. by rewrite IH at 1.
Qed.

Lemma trimEnd_idempotent s : Js.trimEnd (Js.trimEnd s) = Js.trimEnd s.
Proof.
  induction s as [|c s IH]; simpl; [done|].
  destruct (Js.trimEnd s) as [|c' r] eqn:Hr.
  - destruct (Js.isSpace c) eqn:Hc; simpl; [done | by rewrite Hc].
  - simpl in *. by rewrite IH.
Qed.

Lemma trimEnd_app_keep s t :
  Js.trimEnd t <> "" -> Js.trimEnd (s +:+ t) = s +:+ Js.trimEnd t.
Proof.
  intros Ht. induction s as [|c s IH]; simpl; [done|].
  rewrite IH. destruct (s +:+ Js.trimEnd t) eqn:E; [|done].
  by apply append_empty in E as [_ ?].
Qed.

Lemma trimEnd_fixed_app s t :
  Js.trimEnd s = s -> s <> "" -> Js.trimEnd (s +:+ t) = s +:+ Js.trimEnd t.
Proof.
  induction s as [|c s IH]; [done|]. intros Hs _. simpl in Hs.
  destruct (Js.trimEnd s) as [|c' r] eqn:Hr.
  - destruct (Js.isSpace c) eqn:Hc; [done|].
    injection Hs as Hs. subst s. by apply trimEnd_cons.
  - injection Hs as Hs. subst s.
    change (Js.trimEnd (String c (String c' r +:+ t))
            = String c (String c' r +:+ Js.trimEnd t)).
    by rewrite trimEnd_unfold, IH.
Qed.

Lemma trim_blank s : Js.trim s = "" <-> blank s.
Proof.
  unfold Js.trim, blank. split; [|by intros ->].
  destruct (Js.trimStart s) as [|c t] eqn:Hs; [done|].
  rewrite (trimEnd_cons _ _ (trimStart_head _ _ _ Hs)). done.
Qed.

(** The trimmed form of a piece that is not blank survives the
    trimming of the whole. *)
Lemma trim_contains pre s post :
  Js.trim s <> "" ->
  exists a b, Js.trim (pre +:+ s +:+ post) = a +:+ Js.trim s +:+ b.
Proof.
  intros Hs.
  destruct (trimStart_split s) as (wl & Hwl & Hl).
  destruct (trimEnd_split (Js.trimStart s)) as [wr Hr]. fold (Js.trim s) in Hr.
  destruct (Js.trim s) as [|c core] eqn:Hcore; [done|].
  assert (Hc : Js.isSpace c = false).
  { destruct (Js.trimStart s) as [|c' t'] eqn:Ht; [by rewrite Hr in Hl|].
    injection Hr as -> _. by eapply trimStart_head. }
  assert (Hfixed : Js.trimEnd (String c core) = String c core).
  { rewrite <- Hcore. unfold Js.trim. apply trimEnd_idempotent. }
  assert (Hstart : exists a, Js.trimStart (pre +:+ s +:+ post)
                             = a +:+ String c core +:+ wr +:+ post).
  { rewrite Hl, Hr, !append_assoc. clear -Hwl Hc.
    induction pre as [|c' pre [a IH]]; simpl.
    - exists "". rewrite trimStart_blank_app by done. simpl. by rewrite Hc.
    - destruct (Js.isSpace c').
      + by exists a.
      + exists (String c' (pre +:+ wl)). simpl. by rewrite !append_assoc. }
  destruct Hstart as [a Hstart]. unfold Js.trim at 1. rewrite Hstart.
  exists a, (Js.trimEnd (wr +:+ post)).
  rewrite trimEnd_app_keep.
  - by rewrite trimEnd_fixed_app.
  - rewrite trimEnd_fixed_app by done. done.
Qed.

Lemma join_In sep l ls :
  In l ls -> exists pre post, Js.join sep ls = pre +:+ l +:+ post.
Proof.
  unfold Js.join. induction ls as [|x ls IH]; [done|].
  intros [->|Hin].
  - exists "". destruct ls as [|y ls]; simpl.
    + exists "". by rewrite append_empty_r.
    + by eexists.
  - destruct (IH Hin) as (pre & post & Heq). destruct ls as [|y ls]; [done|].
    exists (x +:+ sep +:+ pre), post.
    change (String.concat sep (x :: y :: ls))
      with (x +:+ sep +:+ String.concat sep (y :: ls)).
    by rewrite Heq, !append_assoc.
Qed.

Lemma join_blank ls : Forall blank ls -> blank (Js.join NL ls).
Proof.
  unfold Js.join. induction 1 as [|x ls Hx Hls IH]; [done|].
  destruct ls as [|y ls]; [done|].
  change (String.concat NL (x :: y :: ls))
    with (x +:+ NL +:+ String.concat NL (y :: ls)).
  unfold blank. rewrite trimStart_blank_app by done. apply IH.
Qed.

(** What is left of an output all of whose lines report a path of the
    git tree only, or are blank, is empty. *)
Lemma filterDiff_only_git out :
  Forall (fun line => Js.startsWith line "Only in git" = true \/ Js.trim line = "")
         (Js.split Js.LF None out) ->
  filterDiff out = "".
Proof.
  intros Hlines. unfold filterDiff. apply trim_blank, join_blank.
  apply List.Forall_forall. intros l [Hl Hkeep]%filter_In.
  rewrite List.Forall_forall in Hlines.
  destruct (Hlines l Hl) as [Hgit|Hblank]; [by rewrite Hgit in Hkeep|].
  by apply trim_blank.
Qed.

(** A line that reports anything else and is not blank is part of what is
    left, up to its outer white space. *)
Lemma filterDiff_keeps out line :
  In line (Js.split Js.LF None out) ->
  Js.startsWith line "Only in git" = false ->
  Js.trim line <> "" ->
  exists a b, filterDiff out = a +:+ Js.trim line +:+ b.
Proof.
  intros Hin Hkeep Hline. unfold filterDiff.
  destruct (join_In NL line
              (List.filter (fun line => negb (Js.startsWith line "Only in git"))
                           (Js.split Js.LF None out))) as (pre & post & ->).
  - apply filter_In. by rewrite Hkeep.
  - by apply trim_contains.
Qed.

End Strings.

(** ** The pieces of a string *)

Section Pieces.
Implicit Types s : string.
#[local] Arguments String.append !s1 s2 : simpl nomatch.

Lemma pieces_cons sep s : exists h t, Js.pieces sep s = h :: t.
Proof.
  induction s as [|c s (h & t & IH)]; simpl; [by eauto|].
  destruct (Ascii.eqb c sep); [by eauto|]. rewrite IH. eauto.
Qed.

Lemma concat_cons sep (h : string) c t :
  String.concat sep (String c h :: t) = String c (String.concat sep (h :: t)).
Proof. by destruct t. Qed.

(** Joining the pieces with the separator gives the string back. *)
Lemma join_pieces sep s : Js.join (String sep "") (Js.pieces sep s) = s.
Proof.
  unfold Js.join. induction s as [|c s IH]; simpl; [done|].
  destruct (Ascii.eqb c sep) eqn:Hc.
  - apply Ascii.eqb_eq in Hc as ->.
    destruct (pieces_cons sep s) as (h & t & Hp). rewrite Hp in *.
    change (String.concat (String sep "") ("" :: h :: t))
      with (String sep (String.concat (String sep "") (h :: t))).
    by rewrite IH.
  - destruct (pieces_cons sep s) as (h & t & Hp). rewrite Hp in *.
    by rewrite concat_cons, IH.
Qed.


Lemma pieces_free_id sep s : occurs sep s = false -> Js.pieces sep s = [s].
Proof.
  induction s as [|c s IH]; simpl; [done|].
  intros [Hc Hs]%orb_false_iff. rewrite Hc, IH; done.
Qed.

Lemma pieces_app sep a b :
  occurs sep a = false -> Js.pieces sep (a +:+ String sep b) = a :: Js.pieces sep b.
Proof.
  induction a as [|c a IH]; simpl.
  - intros _. by rewrite Ascii.eqb_refl.
  - intros [Hc Ha]%orb_false_iff. rewrite Hc, IH; done.
Qed.

Lemma nonEmpty_true s : s <> "" -> Js.nonEmpty s = true.
Proof. intros Hs. by apply negb_true_iff, String.eqb_neq. Qed.

End Pieces.

(** ** The integrity check *)

Section Integrity.
Context {platform : Platform} {W : Type} {outside : Outside W}.
Implicit Types s : RunState (W := W).

Lemma run_bind_inr {A B} (p : Prog A) (f : A -> Prog B) s s' b :
  run (bind p f) s = (s', inr b) ->
  exists s0 a, run p s = (s0, inr a) /\ run (f a) s0 = (s', inr b).
Proof.
  rewrite run_bind. destruct (run p s) as [s0 [e|a]]; [done|]. eauto.
Qed.

(** [fetchPackageSource] returns no other taint than [Taint.none]. *)
Lemma fetchPackageSource_returns this dst :
  returns (fun t => t = Taint.none) (fetchPackageSource this dst).
Proof.
  unfold fetchPackageSource.
  eapply returns_bind; [apply returns_any|]. intros [[expected hasher] data] _.
  simpl. destruct (Js.strictNe _ _); by constructor.
Qed.

(** The end of the download and the exit of [tar], in the order the event
    loop chooses. *)
Lemma run_streams url dir s w1 first w2 w3 data :
  pick (world s) = (w1, first) ->
  (if first
   then respond (ResponseEvents url) w1 = (w2, inr (Ended data))
        /\ respond (TarExit dir) w2 = (w3, inr (Some 0%Z))
   else respond (TarExit dir) w1 = (w2, inr (Some 0%Z))
        /\ respond (ResponseEvents url) w2 = (w3, inr (Ended data))) ->
  exists s', run (all (fetchDone url) (tarDone dir)) s = (s', inr (data, tt)) /\ world s' = w3.
Proof.
  intros Hpick Hends. unfold fetchDone, tarDone. simpl. rewrite Hpick.
  destruct first; destruct Hends as [H1 H2]; simpl; rewrite H1; simpl; rewrite H2; simpl; eauto.
Qed.

(** C1, as the code has it.  Take a run of [fetchPackageSource] for the
    registry record [info] in which the request for [info.dist.tarball]
    is answered with 200, the directory is made, the response stream of
    that url ends after the bytes [data] and [tar] exits with 0 (in
    either order).  Its result is decided by comparing two strings,
    letter case included: the digest of [data], computed by the
    platform's hasher for the algorithm that [internals.packageHash]
    reads from [info.dist], and the hash it reads there: [sha1] and
    [dist.shasum] when there is no [dist.integrity], else the algorithm
    and the base64 text of [dist.integrity], the latter in hexadecimal.
    The call resolves with [Taint.none] when the two strings are equal
    and rejects with [Bad package hash] otherwise; it never resolves
    with another taint. *)
Theorem package_hash_compared_exactly
    this dst s s0 this' info dist url w1 w2 expected hasher w3 first w4 w5 data :
  validDst dst = true ->
  run (fetchDetails this) s = (s0, inr (this', info)) ->
  Info.dist info = Some dist ->
  Info.tarball dist = Some url ->
  url <> "" ->
  respond (WreckRequest "GET" url) (world s0) = (w1, inr 200%Z) ->
  let dir := Path_resolve dst in
  respond (FsMkdir dir) w1 = (w2, inr tt) ->
  packageHash info = Ret expected ->
  createHash (alg expected) = inr hasher ->
  pick w2 = (w3, first) ->
  (if first
   then respond (ResponseEvents url) w3 = (w4, inr (Ended data))
        /\ respond (TarExit dir) w4 = (w5, inr (Some 0%Z))
   else respond (TarExit dir) w3 = (w4, inr (Some 0%Z))
        /\ respond (ResponseEvents url) w4 = (w5, inr (Ended data))) ->
  (run (fetchPackageSource this dst) s).2
    = (if String.eqb (hasher data) (hash expected) then inr Taint.none
       else inl (newError "Bad package hash"))
  /\ world (run (fetchPackageSource this dst) s).1 = w5
  /\ (forall s' t, run (fetchPackageSource this dst) s = (s', inr t) -> t = Taint.none)
  /\ (Js.truthy (Info.integrity dist) = false ->
      expected = {| alg := "sha1"; hash := Js.show (Info.shasum dist) |})
  /\ (forall algorithm b64 rest,
        Info.integrity dist = Some (algorithm +:+ "-" +:+ b64 +:+ rest) ->
        occurs "-" algorithm = false -> occurs "-" b64 = false ->
        rest = "" \/ (exists r, rest = "-" +:+ r) ->
        expected = {| alg := algorithm; hash := base64ToHex b64 |}).
Proof.
  intros Hdst Hinfo Hdist Htar Hurl Hreq dir Hmkdir Hexpected Hhasher Hpick Hends.
  assert (Hdeclared :
    (Js.truthy (Info.integrity dist) = false ->
     expected = {| alg := "sha1"; hash := Js.show (Info.shasum dist) |})
    /\ (forall algorithm b64 rest,
          Info.integrity dist = Some (algorithm +:+ "-" +:+ b64 +:+ rest) ->
          occurs "-" algorithm = false -> occurs "-" b64 = false ->
          rest = "" \/ (exists r, rest = "-" +:+ r) ->
          expected = {| alg := algorithm; hash := base64ToHex b64 |})).
  { pose proof Hexpected as Hread. unfold packageHash in Hread. rewrite Hdist in Hread.
    split.
    - intros Hnone. rewrite Hnone in Hread. revert Hread.
      destruct (Js.truthy (Info.shasum dist)); [by intros [= <-] | done].
    - intros algorithm b64 rest Hintegrity Halg Hb64 Hrest.
      rewrite Hintegrity in Hread. simpl Js.truthy in Hread.
      rewrite nonEmpty_true in Hread by (by destruct algorithm).
      simpl Js.show in Hread. unfold Js.split in Hread.
      change (algorithm +:+ "-" +:+ b64 +:+ rest)
        with (algorithm +:+ String "-" (b64 +:+ rest)) in Hread.
      rewrite pieces_app in Hread by done.
      destruct Hrest as [->|[r ->]].
      + rewrite append_empty_r, (pieces_free_id _ _ Hb64) in Hread.
        by injection Hread as <-.
      + change (b64 +:+ "-" +:+ r) with (b64 +:+ String "-" r) in Hread.
        rewrite pieces_app in Hread by done. by injection Hread as <-. }
  assert (Hrun : exists s', world s' = w5 /\
            run (fetchPackageStream this dst) s = (s', inr (expected, hasher, data))).
  { unfold fetchPackageStream.
    rewrite run_bind, run_assert, Hdst. cbv beta iota.
    rewrite run_bind, Hinfo. cbv beta iota. rewrite Hdist, Htar.
    rewrite !run_bind, run_assert. simpl Js.truthy.
    replace (Js.nonEmpty url) with true
      by (symmetry; apply negb_true_iff, String.eqb_neq; done).
    cbv beta iota. simpl Js.show. simpl run at 1. cbv beta iota.
    rewrite run_bind, run_await, Hreq. cbv beta iota.
    rewrite run_bind. simpl run at 1. cbv beta iota.
    rewrite run_bind, run_await. simpl world. fold dir. rewrite Hmkdir. cbv beta iota.
    rewrite Hexpected. rewrite run_bind. simpl run at 1. cbv beta iota.
    rewrite Hhasher. rewrite run_bind. simpl run at 1. cbv beta iota.
    rewrite run_bind.
    edestruct (run_streams url dir) as (s' & -> & Hworld); [exact Hpick | exact Hends |].
    simpl. eauto. }
  destruct Hrun as (s' & Hworld & Hrun).
  unfold fetchPackageSource. rewrite run_bind, Hrun. simpl.
  unfold Js.strictNe. split; [|split; [|split]].
  - by destruct (String.eqb _ _).
  - by destruct (String.eqb _ _).
  - intros s'' t. by destruct (String.eqb _ _); intros [= _ <-].
  - exact Hdeclared.
Qed.

End Integrity.

(** ** The diff of the two trees *)

Section Diff.
Context {platform : Platform} {W : Type} {outside : Outside W}.
Implicit Types s : RunState (W := W).

Lemma run_diffTrees this tmpDir git s :
  run (diffTrees this tmpDir git) s =
  let '(w, o) := respond (diffCommand tmpDir) (world s) in
  (settle s (diffCommand tmpDir) w o,
   match o with
   | inr _ => inr git
   | inl err =>
       if (isExit 1 (code err) || isExit 2 (code err)) && Js.truthy (stdout err) then
         let diff := filterDiff (Js.show (stdout err)) in
         if Js.nonEmpty diff then
           inl (ValidationError "Mismatch"
                  {| d_pkg := None; d_version := Some (version this); d_diff := Some diff |})
         else inr git
       else inl err
   end).
Proof.
  unfold diffTrees, diffCommand. rewrite run_try_catch, run_bind, run_exec.
  destruct (respond _ (world s)) as [w [err|out]]; [|done].
  cbv beta iota. destruct (_ && _); [|done].
  cbv zeta. by destruct (Js.nonEmpty _).
Qed.

(** [check], once the scratch directory is made: the sources, the diff,
    then the removal, whose failure replaces the result. *)
Lemma run_check this s w1 tmp w2 tmpDir w3 :
  respond OsTmpdir (world s) = (w1, inr tmp) ->
  respond (UniqueFilename tmp) w1 = (w2, inr tmpDir) ->
  respond (FsMkdir tmpDir) w2 = (w3, inr tt) ->
  run (check this) s =
  let s0 := settle (settle (settle s OsTmpdir w1 (inr tmp))
                           (UniqueFilename tmp) w2 (inr tmpDir))
                   (FsMkdir tmpDir) w3 (inr tt) in
  let '(s1, r) :=
    run (git <- fetchSources this (Path_join tmpDir "package") (Path_join tmpDir "git") ;;
         diffTrees this tmpDir git) s0 in
  let '(w, o) := respond (removeCommand tmpDir) (world s1) in
  (settle s1 (removeCommand tmpDir) w o,
   match o with inl e => inl e | inr _ => r end).
Proof.
  intros Htmp Hname Hmkdir. unfold check.
  rewrite run_bind, run_await, Htmp; cbv beta iota.
  rewrite run_bind, run_await; simpl world.
  rewrite Hname; cbv beta iota.
  rewrite run_bind, run_await; simpl world.
  rewrite Hmkdir; cbv beta iota zeta.
  rewrite run_finally.
  destruct (run _ _) as [s1 r]. rewrite run_bind, run_exec.
  unfold removeCommand.
  by destruct (respond _ (world s1)) as [w [e|out]].
Qed.

(** C4.  The outcome [o] of the diff decides how lines 247-268 complete:
    a resolved diff (exit 0) returns the taint [git] unchanged; exit 1 or
    2 with output returns [git] when every line reports a path of the git
    tree only (or is blank), and throws [Mismatch] when some line reports
    anything else, with a diff text that is the filtered output and
    contains that line; any other rejection of the diff is thrown as it
    is.  And [check()] completes that way whenever it made its scratch
    directory, fetched both sources with the taint [git] and removed the
    directory in the end. *)
Theorem diff_decides_outcome this tmpDir git s1 w4 o :
  respond (diffCommand tmpDir) (world s1) = (w4, o) ->
  let outcome := (run (diffTrees this tmpDir git) s1).2 in
  match o with
  | inr _ => outcome = inr git
  | inl err =>
      if (isExit 1 (code err) || isExit 2 (code err)) && Js.truthy (stdout err) then
        let out := Js.show (stdout err) in
        let lines := Js.split Js.LF None out in
        (Forall (fun line => Js.startsWith line "Only in git" = true \/ Js.trim line = "")
                lines ->
         outcome = inr git)
        /\ (forall line,
              In line lines ->
              Js.startsWith line "Only in git" = false ->
              Js.trim line <> "" ->
              outcome = inl (ValidationError "Mismatch"
                               {| d_pkg := None; d_version := Some (version this);
                                  d_diff := Some (filterDiff out) |})
              /\ exists a b, filterDiff out = a +:+ Js.trim line +:+ b)
      else outcome = inl err
  end
  /\ (forall s w1 tmp w2 w3 w5 removed,
        respond OsTmpdir (world s) = (w1, inr tmp) ->
        respond (UniqueFilename tmp) w1 = (w2, inr tmpDir) ->
        respond (FsMkdir tmpDir) w2 = (w3, inr tt) ->
        run (fetchSources this (Path_join tmpDir "package") (Path_join tmpDir "git"))
            (settle (settle (settle s OsTmpdir w1 (inr tmp))
                            (UniqueFilename tmp) w2 (inr tmpDir))
                    (FsMkdir tmpDir) w3 (inr tt))
          = (s1, inr git) ->
        respond (removeCommand tmpDir) w4 = (w5, inr removed) ->
        (run (check this) s).2 = outcome).
Proof.
  intros Hdiff outcome. subst outcome. rewrite run_diffTrees, Hdiff. split.
  - cbn [snd]. destruct o as [err|out]; [|done].
    destruct (_ && _); [|done]. split.
    + intros Hlines. by rewrite (filterDiff_only_git _ Hlines).
    + intros line Hin Hkeep Hline.
      destruct (filterDiff_keeps _ _ Hin Hkeep Hline) as (a & b & Heq).
      split; [|eauto].
      replace (Js.nonEmpty (filterDiff (Js.show (stdout err)))) with true; [done|].
      rewrite Heq. unfold Js.nonEmpty. symmetry. apply negb_true_iff, String.eqb_neq.
      intros [_ [E _]%append_empty]%append_empty. done.
  - intros s w1 tmp w2 w3 w5 removed Htmp Hname Hmkdir Hsources Hremove.
    rewrite (run_check _ _ _ _ _ _ _ Htmp Hname Hmkdir). cbv zeta.
    rewrite run_bind, Hsources, run_diffTrees, Hdiff. simpl world.
    by rewrite Hremove.
Qed.

End Diff.

(** ** The check on the sample worlds *)

Section CheckSamples.
#[local] Existing Instance Sample.platform.

(** The registry gives the SHA-1 of the tarball of [upper] in upper-case
    letters: equal to the digest up to letter case, and refused. *)
Lemma hash_comparison_is_case_sensitive :
  let outside := Sample.world Sample.fine in
  let digest := Sha1.digest Sample.tarball in
  let expected := "A9993E364706816ABA3E25717850C26C9CD0D89D" in
  digest = "a9993e364706816aba3e25717850c26c9cd0d89d"
  /\ (run (fetchPackageStream Sample.validatorUpper "/tmp/1-2-3/package") (initial tt)).2
     = inr ({| alg := "sha1"; hash := expected |}, Sha1.digest, Sample.tarball)
  /\ equalIgnoringCase digest expected = true
  /\ (run (fetchPackageSource Sample.validatorUpper "/tmp/1-2-3/package") (initial tt)).2
     = inl (newError "Bad package hash").
Proof.
  intros outside digest expected.
  split; [vm_compute; reflexivity|]. split; [reflexivity|].
  split; vm_compute; reflexivity.
Qed.

(** The tarball of [a] against its legacy checksum, and the tarball of
    [signed] against its [integrity] (the checksum of [signed] is
    another one and is not looked at). *)
Lemma package_hash_compared_exactly_witness :
  (let outside := Sample.world Sample.fine in
   packageHash Sample.a = Ret {| alg := "sha1"; hash := Sample.sha1 |}
   /\ (run (fetchPackageSource Sample.validatorA "/tmp/1-2-3/package") (initial tt)).2
      = inr Taint.none)
  /\ (let outside :=
        Sample.staged
          {| Sample.knobs := Sample.fine;
             Sample.view := Some (inr "{ name: 'signed', version: '1.0.0' }");
             Sample.status := 200; Sample.made := inr tt; Sample.sigint := false |} in
      let validator :=
        {| package := "signed"; version := "latest"; loose := false; _details := None |} in
      packageHash (platform := Sample.catalogue) Sample.signed
        = Ret {| alg := "sha1"; hash := Sample.sha1 |}
      /\ (run (fetchPackageSource (platform := Sample.catalogue) validator "/tmp/1-2-3/package")
              (initial tt)).2
         = inr Taint.none).
Proof.
  split.
  - intros outside. split; [reflexivity|].
    edestruct (package_hash_compared_exactly (outside := outside)
                 Sample.validatorA "/tmp/1-2-3/package" (initial tt))
      with (info := Sample.a) (first := true) (data := Sample.tarball)
           (hasher := Sha1.digest) (expected := {| alg := "sha1"; hash := Sample.sha1 |})
      as (Hresult & _);
      [first [reflexivity | discriminate | split; reflexivity] ..|].
    rewrite Hresult. vm_compute. reflexivity.
  - intros outside validator. split; [vm_compute; reflexivity|].
    edestruct (package_hash_compared_exactly (platform := Sample.catalogue)
                 (outside := outside) validator "/tmp/1-2-3/package" (initial tt))
      with (info := Sample.signed) (first := true) (data := Sample.tarball)
           (hasher := Sha1.digest) (expected := {| alg := "sha1"; hash := Sample.sha1 |})
      as (Hresult & _);
      [first [reflexivity | discriminate | split; reflexivity | vm_compute; reflexivity] ..|].
    rewrite Hresult. vm_compute. reflexivity.
Defined.

(** The diff of [Sample.testsLeftOut] reports the tests of the git tree
    only: the check returns the taint of the checkout. *)
Lemma diff_decides_outcome_witness :
  let outside := Sample.world Sample.testsLeftOut in
  let failure :=
    Sample.failed "Command failed: diff -r -u --strip-trailing-cr git package" 1
                  ("Only in git: test" +:+ NL) in
  respond (diffCommand "/tmp/1-2-3") tt = (tt, inl failure)
  /\ (run (check Sample.validatorA) (initial tt)).2 = inr Taint.none.
Proof.
  intros outside failure. split; [reflexivity|].
  set (s0 := settle (settle (settle (initial tt) OsTmpdir tt (inr "/tmp"))
                            (UniqueFilename "/tmp") tt (inr "/tmp/1-2-3"))
                    (FsMkdir "/tmp/1-2-3") tt (inr tt)).
  set (sources := run (fetchSources Sample.validatorA "/tmp/1-2-3/package" "/tmp/1-2-3/git") s0).
  assert (Hsources : sources = (sources.1, inr Taint.none)) by (vm_compute; reflexivity).
  assert (Hdiff : respond (diffCommand "/tmp/1-2-3") (world sources.1) = (tt, inl failure))
    by reflexivity.
  pose proof (diff_decides_outcome (outside := outside) Sample.validatorA "/tmp/1-2-3"
                Taint.none sources.1 tt (inl failure) Hdiff) as [[Honly _] Hcheck].
  rewrite (Hcheck (initial tt) tt "/tmp" tt tt tt "" eq_refl eq_refl eq_refl Hsources eq_refl).
  apply Honly.
  repeat (constructor; [first [left; reflexivity | right; reflexivity]|]).
  constructor.
Defined.

(** C3 on [Sample.extraFile]: the checkout is tainted ([sha-mismatch]),
    the diff reports a file of the package only, and the error thrown
    has the details [pkg] (undefined), [version] and [diff], and none of
    the taint. *)
Lemma mismatch_error_lacks_taint :
  let outside := Sample.world Sample.extraFile in
  (run (fetchGitSource Sample.validatorA "/tmp/1-2-3/git") (initial tt)).2
  = inr {| Taint.ref := 1; Taint.reason := Some "sha-mismatch";
           Taint.details := Some (Taint.Sha (Some Sample.head) Sample.otherHead) |}
  /\ (run (check Sample.validatorA) (initial tt)).2
     = inl (ValidationError "Mismatch"
              {| d_pkg := None; d_version := Some "latest";
                 d_diff := Some "Only in package: extra.js" |}).
Proof. intros outside. split; vm_compute; reflexivity. Qed.

(** C9 on a download that the server refuses (status 404) while the
    clone is under way.  [check()] rejects with the error of the
    download after [rm -rf] of the scratch directory, its last command;
    the call of [fetchGitSource] that [Promise.all] had started is
    neither awaited nor cancelled and is left running; and its [git
    clone] into the scratch directory and its [git rev-parse] there come
    to their end after the removal. *)
Lemma orphaned_clone_outlives_the_removal :
  let outside :=
    Sample.staged
      {| Sample.knobs := Sample.fine; Sample.view := None;
         Sample.status := 404; Sample.made := inr tt; Sample.sigint := false |} in
  let out := run (check Sample.validatorA) (initial tt) in
  out.2 = inl (newError "Bad server response: 404")
  /\ last (trace out.1) = Some (succeeded (event (removeCommand "/tmp/1-2-3")))
  /\ detached out.1
     = [abandoned (fetchGitSource (set_details Sample.validatorA (Some (JObject Sample.a)))
                                  "/tmp/1-2-3/git")]
  /\ drop (length (trace out.1)) (trace (resume out.1))
     = [succeeded (event (cloneCommand "https://github.com/sample/a.git" "v1.0.0"
                                       "/tmp/1-2-3/git"));
        succeeded (event (revParseCommand "/tmp/1-2-3/git"))].
Proof.
  intros outside out.
  split; [vm_compute; reflexivity|]. split; [vm_compute; reflexivity|].
  split; [lazy; reflexivity | vm_compute; reflexivity].
Qed.

End CheckSamples.

(** ** The dependency walker *)

Section WalkerProperties.
Context {platform : Platform} {W : Type} {outside : Outside W}.
Implicit Types σ : Walk (W := W).

Lemma is_Some_insert (m : gmap string (option Taint.t)) k k' v :
  is_Some (m !! k) -> is_Some (<[k' := v]> m !! k).
Proof.
  intros Hk. destruct (decide (k' = k)) as [->|Hne].
  - rewrite lookup_insert_eq. eauto.
  - by rewrite lookup_insert_ne.
Qed.

Lemma consistent_start (w : W) : consistent (start w).
Proof. split; [constructor | intros k Hk; by apply elem_of_nil in Hk]. Qed.

Lemma consistent_insert m c k v :
  consistentWith m c -> consistentWith (<[k := v]> m) c.
Proof. intros [Hnd Hin]. split; [done|]. intros k' Hk'. by apply is_Some_insert, Hin. Qed.

Lemma consistent_check m c k v :
  consistentWith m c -> m !! k = None -> consistentWith (<[k := v]> m) (c ++ [k]).
Proof.
  intros [Hnd Hin] Hk. split.
  - apply NoDup_app. split; [done|]. split; [|apply NoDup_singleton].
    intros k' Hk' ->%list_elem_of_singleton.
    destruct (Hin _ Hk') as [? ?]. congruence.
  - intros k' [Hk'| ->%list_elem_of_singleton]%elem_of_app.
    + by apply is_Some_insert, Hin.
    + rewrite lookup_insert_eq. eauto.
Qed.

(** [validatePkg] keeps the invariant, only adds keys to the memo table,
    and leaves the query key in it. *)
Lemma validatePkg_consistent pkg version loose σ σ' reply :
  validatePkg pkg version loose σ = (σ', reply) ->
  consistent σ -> consistent σ'.
Proof.
  unfold validatePkg, consistent. intros Hrun Hc.
  repeat case_match; simplify_eq; simpl; try done.
  - by apply consistent_insert.
  - by apply consistent_insert.
  - by do 2 apply consistent_insert.
  - apply consistent_check; [by apply consistent_insert | done].
  - apply consistent_insert. rewrite insert_insert_eq.
    apply consistent_check; [by apply consistent_insert | done].
Qed.

Lemma validatePkg_grows pkg version loose σ σ' reply :
  validatePkg pkg version loose σ = (σ', reply) ->
  dom (results σ) ⊆ dom (results σ') /\ key pkg version ∈ dom (results σ').
Proof.
  unfold validatePkg, key. intros Hrun.
  repeat case_match; simplify_eq; simpl; rewrite ?dom_insert_L;
    (split; [set_solver|]); try set_solver.
  apply elem_of_dom. eauto.
Qed.


Lemma eachDependency_cons recurse dep spec deps tainted σ :
  eachDependency recurse ((dep, spec) :: deps) tainted σ =
  match run checkAbort (state σ) with
  | (s, inl e) => Some (with_state σ s, inl e)
  | (s, inr _) =>
      match recurse dep spec (with_state σ s) with
      | None => None
      | Some (σ, inl e) => Some (σ, inl e)
      | Some (σ, inr ok) => eachDependency recurse deps (tainted || negb ok) σ
      end
  end.
Proof. done. Qed.

Lemma validate_S fuel pkg version loose recursive σ :
  validate (S fuel) pkg version loose recursive σ =
  let '(σ, reply) := validatePkg pkg version loose σ in
  match run (report (error reply)) (state σ) with
  | (s, inl e) => Some (with_state σ s, inl e)
  | (s, inr _) =>
      let σ := with_state σ s in
      let tainted := from_option (fun result => negb (Taint.clean result)) true (result reply) in
      match info reply with
      | Some info =>
          match Info.dependencies info with
          | Some deps =>
              if recursive then
                eachDependency (fun dep spec σ => validate fuel dep spec true recursive σ)
                               deps tainted σ
              else Some (σ, inr (negb tainted))
          | None => Some (σ, inr (negb tainted))
          end
      | None => Some (σ, inr (negb tainted))
      end
  end.
Proof.
  simpl. destruct (validatePkg pkg version loose σ) as [σ1 reply].
  by destruct (result reply).
Qed.

(** A property of the walk's state that [validatePkg] keeps and that does
    not depend on the state of the run is kept by the whole walk. *)
Lemma eachDependency_keeps (I : Walk -> Prop) recurse deps tainted σ σ' r :
  (forall σ s, I σ -> I (with_state σ s)) ->
  (forall dep spec σ σ' r, I σ -> recurse dep spec σ = Some (σ', r) -> I σ') ->
  I σ -> eachDependency recurse deps tainted σ = Some (σ', r) -> I σ'.
Proof.
  intros Hstate Hrec. revert tainted σ.
  induction deps as [|[dep spec] deps IH]; intros tainted σ Hσ.
  - by intros [= <- _].
  - rewrite eachDependency_cons.
    destruct (run checkAbort (state σ)) as [s [e|[]]].
    + intros [= <- _]. by apply Hstate.
    + destruct (recurse dep spec (with_state σ s)) as [[σ1 [e|ok]]|] eqn:Hr; [| |done].
      * intros [= <- _]. eapply Hrec; [|done]. by apply Hstate.
      * apply IH. eapply Hrec; [|done]. by apply Hstate.
Qed.

Lemma validate_keeps (I : Walk -> Prop) :
  (forall σ s, I σ -> I (with_state σ s)) ->
  (forall pkg version loose σ σ' reply,
     validatePkg pkg version loose σ = (σ', reply) -> I σ -> I σ') ->
  forall fuel pkg version loose recursive σ σ' r,
    I σ -> validate fuel pkg version loose recursive σ = Some (σ', r) -> I σ'.
Proof.
  intros Hstate Hpkg. induction fuel as [|fuel IH]; [done|].
  intros pkg version0 loose0 recursive σ σ' r Hσ. rewrite validate_S.
  destruct (validatePkg pkg version0 loose0 σ) as [σ1 reply] eqn:Hreply.
  assert (H1 : I σ1) by (by eapply Hpkg).
  destruct (run (report (error reply)) (state σ1)) as [s [e|[]]].
  { intros [= <- _]. by apply Hstate. }
  assert (H2 : I (with_state σ1 s)) by (by apply Hstate).
  destruct (info reply) as [i|]; [|by intros [= <- _]].
  destruct (Info.dependencies i) as [deps|]; [|by intros [= <- _]].
  destruct recursive; [|by intros [= <- _]].
  apply eachDependency_keeps; [done| |done].
  intros dep spec σ2 σ3 r3 Hσ2. by apply IH.
Qed.

Lemma validate_consistent fuel pkg version loose recursive σ σ' r :
  consistent σ -> validate fuel pkg version loose recursive σ = Some (σ', r) ->
  consistent σ'.
Proof.
  apply (validate_keeps consistent); [done|].
  intros. by eapply validatePkg_consistent.
Qed.

Lemma validate_grows fuel pkg version loose recursive σ σ' r :
  validate fuel pkg version loose recursive σ = Some (σ', r) ->
  dom (results σ) ⊆ dom (results σ').
Proof.
  apply (validate_keeps (fun σ' => dom (results σ) ⊆ dom (results σ'))); [done| |done].
  intros ? ? ? σ1 σ2 ? Hpkg Hσ1.
  destruct (validatePkg_grows _ _ _ _ _ _ Hpkg) as [Hsub _]. set_solver.
Qed.

(** A hit on the query key. *)
Lemma validatePkg_query_hit pkg version loose σ stored :
  results σ !! key pkg version = Some stored ->
  validatePkg pkg version loose σ =
    (σ, {| result := stored; error := None; info := None |}).
Proof. unfold validatePkg, key. by intros ->. Qed.

Lemma validate_query_hit fuel pkg version loose recursive σ stored :
  results σ !! key pkg version = Some stored ->
  validate (S fuel) pkg version loose recursive σ =
    Some (σ, inr (from_option Taint.clean false stored)).
Proof.
  intros Hhit. rewrite validate_S, (validatePkg_query_hit _ _ _ _ _ Hhit). simpl.
  destruct σ as [m c s]. unfold with_state. simpl.
  destruct stored as [t|]; simpl; [by rewrite negb_involutive | done].
Qed.

(** A hit on the key of the resolved version. *)
Lemma validatePkg_version_hit pkg version loose σ s v i stored :
  results σ !! key pkg version = None ->
  run (lookupDetails pkg version loose) (state σ) = (s, inr (v, i)) ->
  results σ !! key pkg (Js.show (Info.version i)) = Some stored ->
  validatePkg pkg version loose σ =
    ({| results := <[key pkg version := None]> (results σ); checks := checks σ; state := s |},
     {| result := stored; error := None; info := None |}).
Proof.
  unfold validatePkg, key, lookupDetails. intros Hquery Hrun Hhit.
  rewrite Hquery, Hrun. rewrite lookup_insert_ne; [by rewrite Hhit|].
  intros Heq. rewrite Heq in Hquery. congruence.
Qed.

Lemma validate_version_hit fuel pkg version loose recursive σ s v i stored :
  results σ !! key pkg version = None ->
  run (lookupDetails pkg version loose) (state σ) = (s, inr (v, i)) ->
  results σ !! key pkg (Js.show (Info.version i)) = Some stored ->
  validate (S fuel) pkg version loose recursive σ =
    Some ({| results := <[key pkg version := None]> (results σ); checks := checks σ; state := s |},
          inr (from_option Taint.clean false stored)).
Proof.
  intros Hquery Hlookup Hhit.
  rewrite validate_S, (validatePkg_version_hit _ _ _ _ _ _ _ _ Hquery Hlookup Hhit). simpl.
  unfold with_state. simpl.
  destruct stored as [t|]; simpl; [by rewrite negb_involutive | done].
Qed.

(** The first arrival at a version. *)
Lemma validatePkg_fresh_version pkg version loose σ s v i w σ' reply :
  results σ !! key pkg version = None ->
  run (lookupDetails pkg version loose) (state σ) = (s, inr (v, i)) ->
  key pkg (Js.show (Info.version i)) <> key pkg version ->
  results σ !! key pkg (Js.show (Info.version i)) = None ->
  respond (ConsoleLog [" * Validating package: " +:+ Js.show (Info.name i)
                         +:+ "@" +:+ Js.show (Info.version i)]) (world s) = (w, inr tt) ->
  validatePkg pkg version loose σ = (σ', reply) ->
  checks σ' = checks σ ++ [key pkg (Js.show (Info.version i))]
  /\ info reply = Some i.
Proof.
  unfold validatePkg, key, lookupDetails. intros -> -> Hne Hfresh Hlog.
  rewrite lookup_insert_ne by done. rewrite Hfresh, run_await, Hlog.
  destruct (run (check v) _) as [s1 [e|t]]; by intros [= <- <-].
Qed.


(** A reply with [info] comes from a registry lookup for a query that was
    not in the memo table. *)
Lemma validatePkg_info pkg version loose σ σ' reply i :
  validatePkg pkg version loose σ = (σ', reply) ->
  info reply = Some i ->
  results σ !! key pkg version = None
  /\ exists s v, run (lookupDetails pkg version loose) (state σ) = (s, inr (v, i)).
Proof.
  unfold validatePkg, key, lookupDetails. intros Hrun Hinfo.
  repeat case_match; simplify_eq; simpl in *; simplify_eq; eauto.
Qed.

Lemma eachDependency_terminates (D : gset string) recurse deps :
  (forall dep spec σ,
     In (dep, spec) deps -> D ⊆ dom (results σ) ->
     exists σ' r, recurse dep spec σ = Some (σ', r) /\ dom (results σ) ⊆ dom (results σ')) ->
  forall tainted σ, D ⊆ dom (results σ) ->
  is_Some (eachDependency recurse deps tainted σ).
Proof.
  induction deps as [|[dep spec] deps IH]; intros Hrec tainted σ Hσ.
  - by eexists.
  - rewrite eachDependency_cons.
    destruct (run checkAbort (state σ)) as [s [e|[]]]; [by eexists|].
    destruct (Hrec dep spec (with_state σ s)) as (σ' & [e|ok] & -> & Hgrow);
      [by left | done | by eexists |].
    apply IH.
    + intros dep' spec' σ1 Hin. apply Hrec. by right.
    + simpl in Hgrow. set_solver.
Qed.

(** Over a finite registry the walk comes to an end: a depth beyond the
    number of keys of [U] not yet in the memo table is never reached. *)
Lemma validate_terminates (U : gset string) :
  finiteRegistry U ->
  forall fuel pkg version loose recursive σ,
    key pkg version ∈ U ->
    size (U ∖ dom (results σ)) < fuel ->
    is_Some (validate fuel pkg version loose recursive σ).
Proof.
  intros HU. induction fuel as [|fuel IH]; [lia|].
  intros pkg version0 loose0 recursive σ Hkey Hsize. rewrite validate_S.
  destruct (validatePkg pkg version0 loose0 σ) as [σ1 reply] eqn:Hreply.
  destruct (validatePkg_grows _ _ _ _ _ _ Hreply) as [Hgrow Hin].
  destruct (run (report (error reply)) (state σ1)) as [s [e|[]]]; [by eexists|].
  cbv zeta. destruct (info reply) as [i|] eqn:Hinfo; [|by eexists].
  destruct (Info.dependencies i) as [deps|] eqn:Hdeps; [|by eexists].
  destruct recursive; [|by eexists].
  destruct (validatePkg_info _ _ _ _ _ _ _ Hreply Hinfo) as (Hfresh & s0 & v & Hlookup).
  assert (Hless : size (U ∖ dom (results σ1)) < fuel).
  { apply Nat.lt_le_trans with (size (U ∖ dom (results σ))); [|lia].
    apply subset_size. split; [by apply difference_mono_l|]. intros Hback.
    assert (Hmem : key pkg version0 ∈ U ∖ dom (results σ1)).
    { apply Hback, elem_of_difference. split; [done|]. by apply not_elem_of_dom. }
    apply elem_of_difference in Hmem as [_ Hout]. by apply Hout. }
  apply (eachDependency_terminates (dom (results σ1))); [|done].
  intros dep spec σ2 Hdep Hσ2.
  destruct (IH dep spec true true σ2) as [[σ3 r] Hrun].
  - by eapply HU.
  - apply Nat.le_lt_trans with (size (U ∖ dom (results σ1))); [|done].
    apply subseteq_size. by apply difference_mono_l.
  - exists σ3, r. split; [done|]. by eapply validate_grows.
Qed.

(** C7, as the code has it.  (1) In a walk from the empty memo table no
    version key is checked twice.  (2) A hit on the query key returns the
    stored value with no command performed, and [validate] resolves at
    once, without a lookup of dependencies.  (3) A hit on the key of the
    resolved version returns the stored value after the registry lookup
    alone, without [check()] and without [info], and [validate] resolves
    without recursion.
    (4) The first arrival at a version, by a specifier that is not that
    version itself, runs [check()] for it.  (5) Over a finite registry
    every walk comes to an end. *)
Theorem walk_checks_each_version_once :
  (forall fuel pkg version loose recursive (w : W) σ' r,
     validate fuel pkg version loose recursive (start w) = Some (σ', r) ->
     NoDup (checks σ'))
  /\ (forall fuel pkg version loose recursive σ stored,
        results σ !! key pkg version = Some stored ->
        validatePkg pkg version loose σ
          = (σ, {| result := stored; error := None; info := None |})
        /\ validate (S fuel) pkg version loose recursive σ
           = Some (σ, inr (from_option Taint.clean false stored)))
  /\ (forall fuel pkg version loose recursive σ s v i stored,
        results σ !! key pkg version = None ->
        run (lookupDetails pkg version loose) (state σ) = (s, inr (v, i)) ->
        results σ !! key pkg (Js.show (Info.version i)) = Some stored ->
        let σ' := {| results := <[key pkg version := None]> (results σ);
                     checks := checks σ; state := s |} in
        validatePkg pkg version loose σ
          = (σ', {| result := stored; error := None; info := None |})
        /\ validate (S fuel) pkg version loose recursive σ
           = Some (σ', inr (from_option Taint.clean false stored)))
  /\ (forall pkg version loose σ s v i w σ' reply,
        results σ !! key pkg version = None ->
        run (lookupDetails pkg version loose) (state σ) = (s, inr (v, i)) ->
        key pkg (Js.show (Info.version i)) <> key pkg version ->
        results σ !! key pkg (Js.show (Info.version i)) = None ->
        respond (ConsoleLog [" * Validating package: " +:+ Js.show (Info.name i)
                               +:+ "@" +:+ Js.show (Info.version i)]) (world s)
          = (w, inr tt) ->
        validatePkg pkg version loose σ = (σ', reply) ->
        checks σ' = checks σ ++ [key pkg (Js.show (Info.version i))])
  /\ (forall (U : gset string) fuel pkg version loose recursive σ,
        finiteRegistry U ->
        key pkg version ∈ U ->
        size (U ∖ dom (results σ)) < fuel ->
        is_Some (validate fuel pkg version loose recursive σ)).
Proof.
  split; [|split; [|split; [|split]]].
  - intros fuel pkg version0 loose0 recursive w σ' r Hrun.
    by destruct (validate_consistent _ _ _ _ _ _ _ _ (consistent_start w) Hrun).
  - intros fuel pkg version0 loose0 recursive σ stored Hhit. split.
    + by apply validatePkg_query_hit.
    + by apply validate_query_hit.
  - intros fuel pkg version0 loose0 recursive σ s v i stored Hq Hl Hv. split.
    + by eapply validatePkg_version_hit.
    + by eapply validate_version_hit.
  - intros pkg version0 loose0 σ s v i w σ' reply Hq Hl Hne Hv Hlog Hrun.
    by destruct (validatePkg_fresh_version _ _ _ _ _ _ _ _ _ _ Hq Hl Hne Hv Hlog Hrun).
  - intros U fuel pkg version0 loose0 recursive σ HU. by apply validate_terminates.
Qed.

(** C8, as the code has it.  For a query that is not in the memo table,
    when [validatePkg] is done (and before [validate] turns to the
    dependencies) the query key is in the table; it holds the outcome of
    [check()], and so does the key of the resolved version, when the
    attempt resolved with one; it holds [undefined] when the attempt
    failed with an error. *)
Theorem query_key_marked_then_resolved pkg version loose σ σ' reply :
  results σ !! key pkg version = None ->
  validatePkg pkg version loose σ = (σ', reply) ->
  is_Some (results σ' !! key pkg version)
  /\ (forall e, error reply = Some e -> results σ' !! key pkg version = Some None)
  /\ (forall i t,
        info reply = Some i -> result reply = Some t ->
        results σ' !! key pkg version = Some (Some t)
        /\ results σ' !! key pkg (Js.show (Info.version i)) = Some (Some t)).
Proof.
  intros Hfresh Hrun.
  split; [apply elem_of_dom; by eapply validatePkg_grows|].
  revert Hrun. unfold validatePkg, key in *. rewrite Hfresh.
  repeat case_match; intros; simplify_eq; simpl;
    (split; [intros ? ?; simplify_eq | intros ? ? ? ?; simplify_eq]).
  - by rewrite lookup_insert_eq.
  - by rewrite lookup_insert_ne, lookup_insert_eq
      by (intros Heq; rewrite Heq, lookup_insert_eq in *; done).
  - by rewrite lookup_insert_ne, lookup_insert_eq
      by (intros Heq; rewrite Heq, lookup_insert_eq in *; done).
  - rewrite lookup_insert_eq. split; [done|].
    destruct (decide (pkg +:+ "@" +:+ version = pkg +:+ "@" +:+ Js.show (Info.version i)))
      as [<-|Hne]; [by rewrite lookup_insert_eq|].
    by rewrite lookup_insert_ne, lookup_insert_eq.
Qed.

(** A query whose specifier is the resolved version itself finds its own
    pending mark under the key of the version (line 68): [check()] is
    not run, and the package is reported as not clean. *)
Theorem exact_version_query_is_never_checked fuel pkg version loose recursive σ s v i :
  results σ !! key pkg version = None ->
  run (lookupDetails pkg version loose) (state σ) = (s, inr (v, i)) ->
  Info.version i = Some version ->
  validate (S fuel) pkg version loose recursive σ =
    Some ({| results := <[key pkg version := None]> (results σ);
             checks := checks σ; state := s |},
          inr false).
Proof.
  intros Hquery Hlookup Hversion. rewrite validate_S.
  unfold validatePkg, key, lookupDetails in *.
  rewrite Hquery, Hlookup, Hversion. simpl Js.show. by rewrite lookup_insert_eq.
Qed.

End WalkerProperties.

(** ** The walker on the sample worlds *)

Section WalkerSamples.
#[local] Existing Instance Sample.platform.

(** The walk from [a@latest] goes to [b@^1.0.0] and from there to
    [a@^1.0.0], which resolves to the version already checked: it ends,
    both versions are checked once, and it resolves with [true] (the
    cycle is reported clean). *)
Lemma cycle_is_reported_clean :
  let outside := Sample.world Sample.fine in
  match validate 3 "a" "latest" false true (start tt) with
  | Some (σ, r) =>
      r = inr true
      /\ checks σ = ["a@1.0.0"; "b@1.0.0"]
      /\ results σ !! "a@^1.0.0" = Some None
  | None => False
  end.
Proof. intros outside. vm_compute. repeat split. Qed.

(** The records the sample registry can answer with. *)
Lemma sample_find text docs d :
  Sample.find text docs = inr d -> In d (map snd docs).
Proof.
  induction docs as [|[t j] docs IH]; [done|]. cbn [Sample.find map snd].
  destruct (String.eqb t text); [intros [= <-]; by left | right; by apply IH].
Qed.

Lemma sample_documents text d :
  Sample.find text Sample.documents = inr d ->
  d = JObject Sample.a \/ d = JObject Sample.b \/ d = JObject Sample.upper
  \/ d = JObject Sample.unrecorded.
Proof.
  intros [<-|[<-|[<-|[<-|[]]]]]%sample_find; auto.
Qed.

Lemma sample_lookup k pkg version loose (s s' : RunState (W := unit)) v i :
  run (outside := Sample.world k) (lookupDetails pkg version loose) s = (s', inr (v, i)) ->
  i = Sample.a \/ i = Sample.b \/ i = Sample.upper \/ i = Sample.unrecorded.
Proof.
  unfold lookupDetails, newValidator. intros Hrun.
  apply run_bind_inr in Hrun as (s0 & v0 & Hnew & Hrun).
  apply run_bind_inr in Hnew as (? & _ & _ & Hnew).
  apply run_bind_inr in Hnew as (? & _ & _ & Hnew).
  simpl in Hnew. injection Hnew as <- <-.
  unfold fetchDetails in Hrun. simpl _details in Hrun.
  apply run_bind_inr in Hrun as (s1 & this1 & Hview & Hrun).
  apply run_bind_inr in Hview as (? & json & _ & Hview).
  apply run_bind_inr in Hrun as (s2 & this2 & Hpop & Hrun).
  assert (Hd : exists d, _details this1 = Some (JObject d)
                         /\ (d = Info.empty \/ d = Sample.a \/ d = Sample.b
                             \/ d = Sample.upper \/ d = Sample.unrecorded)).
  { revert Hview. destruct (Js.nonEmpty json).
    - change (JSON_parse json) with (Sample.find json Sample.documents).
      destruct (Sample.find json Sample.documents) as [e|d] eqn:Hfind; simpl; [done|].
      intros [= <- <-].
      destruct (sample_documents _ _ Hfind) as [->|[->|[->| ->]]]; simpl; eauto 7.
    - simpl. intros [= <- <-]. simpl. eauto. }
  destruct Hd as (d & Hd & Hcases). rewrite Hd in Hpop. simpl in Hpop.
  injection Hpop as <- <-. rewrite Hd in Hrun.
  destruct (negb (Js.truthy (Info.name d))) eqn:Hname; [done|].
  simpl in Hrun. injection Hrun as <- <- <-.
  destruct Hcases as [->|Hcases]; [done | exact Hcases].
Qed.

Lemma sample_registry_finite k :
  finiteRegistry (outside := Sample.world k) {[ "a@latest"; "a@^1.0.0"; "b@^1.0.0" ]}.
Proof.
  intros pkg version0 loose0 s s' v i deps dep spec Hrun Hdeps Hin.
  destruct (sample_lookup _ _ _ _ _ _ _ _ Hrun) as [->|[->|[->| ->]]];
    simpl in Hdeps; simplify_eq; destruct Hin as [[= <- <-]|[]];
    unfold key; simpl; set_solver.
Qed.

Lemma walk_checks_each_version_once_witness :
  let outside := Sample.world Sample.fine in
  exists σ r,
    validate 4 "a" "latest" false true (start tt) = Some (σ, r) /\ NoDup (checks σ).
Proof.
  intros outside.
  destruct (walk_checks_each_version_once (outside := outside))
    as (Honce & _ & _ & _ & Hends).
  destruct (Hends {[ "a@latest"; "a@^1.0.0"; "b@^1.0.0" ]} 4 "a" "latest" false true (start tt))
    as [[σ r] Hrun].
  - apply sample_registry_finite.
  - unfold key; simpl; set_solver.
  - vm_compute. lia.
  - exists σ, r. split; [done|]. by eapply Honce.
Defined.

(** The registry has no record of [b]: the attempt fails and the query
    key is left holding [undefined]. *)
Lemma failed_query_stays_pending :
  let outside := Sample.world Sample.noRecordOfB in
  let '(σ', reply) := validatePkg "b" "latest" false (start tt) in
  error reply = Some Sample.notFound
  /\ result reply = None
  /\ results σ' !! "b@latest" = Some None.
Proof. intros outside. vm_compute. repeat split. Qed.

Lemma query_key_marked_then_resolved_witness :
  let outside := Sample.world Sample.fine in
  let σ' := (validatePkg "a" "latest" false (start tt)).1 in
  results (start tt) !! key "a" "latest" = None
  /\ results σ' !! key "a" "latest" = Some (Some Taint.none)
  /\ results σ' !! key "a" "1.0.0" = Some (Some Taint.none).
Proof.
  intros outside σ'. split; [reflexivity|].
  destruct (query_key_marked_then_resolved (outside := outside)
              "a" "latest" false (start tt) σ' (validatePkg "a" "latest" false (start tt)).2
              eq_refl (surjective_pairing _)) as (_ & _ & Hresolved).
  apply (Hresolved Sample.a Taint.none); vm_compute; reflexivity.
Defined.

(** [a@1.0.0] names the version itself: nothing is checked. *)
Lemma exact_version_query_is_never_checked_witness :
  let outside := Sample.world Sample.fine in
  match validate 1 "a" "1.0.0" false true (start tt) with
  | Some (σ, r) => r = inr false /\ checks σ = []
  | None => False
  end.
Proof.
  intros outside.
  erewrite (exact_version_query_is_never_checked (outside := outside) 0 "a" "1.0.0" false true
              (start tt) _ _ Sample.a eq_refl); [| reflexivity | reflexivity].
  split; reflexivity.
Defined.

End WalkerSamples.

(** * More of the code *)

(** ** Splitting, joining and cutting strings *)

Section Cutting.
Implicit Types s : string.
#[local] Arguments String.append !s1 s2 : simpl nomatch.

Lemma filter_all {A} (f : A -> bool) l : Forall (fun x => f x = true) l -> List.filter f l = l.
Proof. induction 1 as [|x l Hx _ IH]; simpl; [done|]. by rewrite Hx, IH. Qed.




(** An output none of whose lines reports a path of the git tree only is
    kept whole, up to the white space around it. *)
Theorem diff_without_git_only_lines_is_kept out :
  Forall (fun line => Js.startsWith line "Only in git" = false) (Js.split Js.LF None out) ->
  filterDiff out = Js.trim out.
Proof.
  intros Hlines. unfold filterDiff. rewrite filter_all.
  - unfold NL, Js.split. by rewrite join_pieces.
  - eapply Forall_impl; [done|]. by intros line ->.
Qed.

Section DiffText.
Context {platform : Platform} {W : Type} {outside : Outside W}.
Implicit Types st : RunState (W := W).


End DiffText.





Section Hash.
Context {platform : Platform}.

(** What [internals.packageHash] reads from [info.dist].  An [integrity]
    of the form [<algorithm>-<base64>], possibly followed by [-] and
    more, gives the algorithm and the base64 text in hexadecimal,
    whatever [shasum] is; an [integrity] without [-] makes it throw;
    without [integrity], [shasum] gives [sha1] and the checksum as it
    is; without both it throws [No package hash]. *)
Theorem packageHash_outcomes info dist :
  Info.dist info = Some dist ->
  (forall algorithm b64 rest,
     Info.integrity dist = Some (algorithm +:+ "-" +:+ b64 +:+ rest) ->
     occurs "-" algorithm = false -> occurs "-" b64 = false ->
     rest = "" \/ (exists r, rest = "-" +:+ r) ->
     packageHash info = Ret {| alg := algorithm; hash := base64ToHex b64 |})
  /\ (forall text,
        Info.integrity dist = Some text -> text <> "" -> occurs "-" text = false ->
        exists e, packageHash info = Throw e)
  /\ (Js.truthy (Info.integrity dist) = false ->
      forall sum, Info.shasum dist = Some sum -> sum <> "" ->
      packageHash info = Ret {| alg := "sha1"; hash := sum |})
  /\ (Js.truthy (Info.integrity dist) = false -> Js.truthy (Info.shasum dist) = false ->
      packageHash info = Throw (newError "No package hash")).
Proof.
  intros Hdist. unfold packageHash. rewrite Hdist. repeat split.
  - intros algorithm b64 rest -> Halg Hb64 Hrest. simpl Js.truthy.
    rewrite nonEmpty_true by (by destruct algorithm).
    simpl Js.show. unfold Js.split.
    change (algorithm +:+ "-" +:+ b64 +:+ rest)
      with (algorithm +:+ String "-" (b64 +:+ rest)).
    rewrite pieces_app by done.
    destruct Hrest as [->|[r ->]].
    + rewrite append_empty_r, (pieces_free_id _ _ Hb64). done.
    + change (b64 +:+ "-" +:+ r) with (b64 +:+ String "-" r).
      rewrite pieces_app by done. done.
  - intros text -> Hne Hfree. simpl Js.truthy. rewrite nonEmpty_true by done.
    simpl Js.show. unfold Js.split. rewrite (pieces_free_id _ _ Hfree). simpl. eauto.
  - intros -> sum -> Hne. simpl Js.truthy. by rewrite nonEmpty_true.
  - by intros -> ->.
Qed.

End Hash.

Lemma length_append (a b : string) :
  String.length (a +:+ b) = String.length a + String.length b.
Proof. induction a as [|c a IH]; simpl; [done|]. by rewrite IH. Qed.

Lemma substring_all s : String.substring 0 (String.length s) s = s.
Proof. induction s as [|c s IH]; simpl; [done|]. by rewrite IH. Qed.

Lemma substring_head (a b : string) : String.substring 0 (String.length a) (a +:+ b) = a.
Proof.
  induction a as [|c a IH]; simpl; [by destruct b|]. by rewrite IH.
Qed.

Lemma substring_tail (a b : string) n :
  String.substring (String.length a) n (a +:+ b) = String.substring 0 n b.
Proof. induction a as [|c a IH]; simpl; done. Qed.

Lemma lastIndexOf_absent c s : occurs c s = false -> Js.lastIndexOf c s = (-1)%Z.
Proof.
  induction s as [|x s IH]; simpl; [done|].
  intros [Hx Hs]%orb_false_iff. by rewrite (IH Hs), Hx.
Qed.

Lemma lastIndexOf_app c (name rest : string) :
  occurs c rest = false ->
  Js.lastIndexOf c (name +:+ String c rest) = Z.of_nat (String.length name).
Proof.
  intros Hrest. induction name as [|x name IH].
  - simpl. by rewrite (lastIndexOf_absent _ _ Hrest), Ascii.eqb_refl.
  - change (Js.lastIndexOf c (String x name +:+ String c rest))
      with (let i := Js.lastIndexOf c (name +:+ String c rest) in
            if (0 <=? i)%Z then (i + 1)%Z
            else if Ascii.eqb x c then 0%Z else (-1)%Z).
    rewrite IH. cbv zeta.
    destruct (Z.leb_spec 0 (Z.of_nat (String.length name))); [|lia].
    simpl String.length. lia.
Qed.

Lemma lastIndexOf_split c s :
  (0 <= Js.lastIndexOf c s)%Z ->
  exists name rest, s = name +:+ String c rest /\ occurs c rest = false.
Proof.
  induction s as [|x s IH]; simpl; [lia|].
  destruct (Z.leb_spec 0 (Js.lastIndexOf c s)) as [Hi|Hi].
  - intros _. destruct (IH Hi) as (name & rest & -> & Hrest).
    by exists (String x name), rest.
  - destruct (Ascii.eqb x c) eqn:Hx; [|lia]. intros _.
    apply Ascii.eqb_eq in Hx as ->. exists "", s. split; [done|].
    clear IH. induction s as [|y s IH]; simpl in *; [done|].
    destruct (Z.leb_spec 0 (Js.lastIndexOf c s)); [lia|].
    destruct (Ascii.eqb y c); [lia|]. simpl. apply IH. lia.
Qed.

Lemma slice_parts (name rest : string) c :
  let p := name +:+ String c rest in
  let i := Z.of_nat (String.length name) in
  Js.slice p 0 (Some i) = name /\ Js.slice p (i + 1) None = rest.
Proof.
  intros p i. unfold Js.slice, Js.clampIndex. subst p.
  rewrite length_append. simpl String.length.
  destruct (Z.ltb_spec 0 0); [lia|].
  destruct (Z.ltb_spec i 0); [lia|].
  destruct (Z.ltb_spec (i + 1) 0); [lia|]. subst i. split.
  - replace (Z.to_nat _) with 0 by lia.
    replace (Z.to_nat _) with (String.length name) by lia.
    apply substring_head.
  - replace (Z.to_nat (Z.min _ _)) with (String.length name + 1) by lia.
    replace (Z.to_nat _) with (String.length rest) by lia.
    replace (String.length name + 1) with (String.length (name +:+ String c "")).
    + change (name +:+ String c rest) with (name +:+ (String c "" +:+ rest)).
      rewrite <- append_assoc, substring_tail. apply substring_all.
    + rewrite length_append. simpl. lia.
Qed.

(** The argument of [-p] is cut at its last [@] when that one is beyond
    the second character: the text before it is the package, the text
    behind it the version, and together they are the memo key of the
    query.  Otherwise the whole argument is the package and the version
    is [latest]: so for a scoped name without version, and so for a
    package named by one character with a version. *)
Theorem target_cuts_at_the_last_at p :
  (forall name rest,
     p = name +:+ "@" +:+ rest -> occurs "@" rest = false ->
     target p = if Nat.leb 2 (String.length name) then (name, rest) else (p, "latest"))
  /\ (occurs "@" p = false -> target p = (p, "latest"))
  /\ (forall pkg version,
        target p = (pkg, version) ->
        (pkg = p /\ version = "latest")
        \/ (key pkg version = p /\ occurs "@" version = false)).
Proof.
  assert (Hcut : forall name rest,
            p = name +:+ "@" +:+ rest -> occurs "@" rest = false ->
            target p = if Nat.leb 2 (String.length name) then (name, rest) else (p, "latest")).
  { intros name rest -> Hrest. unfold target.
    change (name +:+ "@" +:+ rest) with (name +:+ String "@" rest).
    rewrite (lastIndexOf_app _ _ _ Hrest).
    destruct (slice_parts name rest "@") as [-> ->].
    destruct (Z.ltb_spec 1 (Z.of_nat (String.length name)));
      destruct (Nat.leb_spec 2 (String.length name)); try lia; done. }
  split; [done|]. split.
  - intros Hfree. unfold target. by rewrite (lastIndexOf_absent _ _ Hfree).
  - intros pkg version0 Htarget.
    destruct (Z.ltb_spec 1 (Js.lastIndexOf "@" p)) as [Hi|Hi].
    + destruct (lastIndexOf_split "@" p) as (name & rest & Hp & Hrest); [lia|].
      rewrite (Hcut name rest Hp Hrest) in Htarget.
      destruct (Nat.leb 2 (String.length name)); injection Htarget as <- <-;
        [right | by left].
      by rewrite Hp.
    + unfold target in Htarget.
      destruct (Z.ltb_spec 1 (Js.lastIndexOf "@" p)); [lia|].
      injection Htarget as <- <-. by left.
Qed.

End Cutting.

(** ** The registry record and the two fetchers *)

Section Details.
Context {platform : Platform} {W : Type} {outside : Outside W}.
Implicit Types s : RunState (W := W).

(** With a named record in the cache, [fetchDetails] is a plain return. *)
Lemma fetchDetails_cached this info :
  _details this = Some (JObject info) ->
  Js.truthy (Info.name info) = true ->
  fetchDetails this = Ret (this, info).
Proof. intros Hd Hn. unfold fetchDetails. rewrite Hd. simpl. rewrite Hd. simpl. by rewrite Hd, Hn. Qed.

Lemma fetchDetails_inr this s s' this' info :
  run (fetchDetails this) s = (s', inr (this', info)) ->
  Js.truthy (Info.name info) = true
  /\ _details this' = Some (JObject info)
  /\ package this' = package this /\ version this' = version this /\ loose this' = loose this.
Proof.
  unfold fetchDetails. intros Hrun.
  apply run_bind_inr in Hrun as (s1 & this1 & H1 & Hrun).
  apply run_bind_inr in Hrun as (s2 & this2 & H2 & Hrun).
  assert (E1 : package this1 = package this /\ version this1 = version this
               /\ loose this1 = loose this).
  { destruct (_details this) as [d|].
    - by injection H1 as _ <-.
    - apply run_bind_inr in H1 as (? & json & _ & H1).
      destruct (if Js.nonEmpty json then _ else _) as [e|d]; [done|].
      by injection H1 as _ <-. }
  assert (E2 : package this2 = package this1 /\ version this2 = version this1
               /\ loose this2 = loose this1).
  { destruct (_details this1) as [[i|items]|]; try by injection H2 as _ <-.
    destruct (negb (loose this1)); [done|]. by injection H2 as _ <-. }
  destruct (_details this2) as [[i|items]|] eqn:Hd; [|done|done].
  destruct (negb (Js.truthy (Info.name i))) eqn:Hn; [done|].
  injection Hrun as _ <- <-. apply negb_false_iff in Hn.
  destruct E2 as (-> & -> & ->), E1 as (-> & -> & ->). done.
Qed.

(** [fetchDetails] resolves with a record that has a name, keeps it in
    the cache, and from then on answers from the cache: the same record,
    no command performed. *)
Theorem fetchDetails_answers_from_cache this s s' this' info :
  run (fetchDetails this) s = (s', inr (this', info)) ->
  Js.truthy (Info.name info) = true
  /\ _details this' = Some (JObject info)
  /\ forall s2, run (fetchDetails this') s2 = (s2, inr (this', info)).
Proof.
  intros Hrun. destruct (fetchDetails_inr _ _ _ _ _ Hrun) as (Hn & Hd & _).
  split; [done|]. split; [done|]. intros s2.
  by rewrite (fetchDetails_cached _ _ Hd Hn).
Qed.

(** The lookup of a validator without cached details, once [npm view] has
    printed [json].  Nothing printed: the call rejects with [Failed to
    find package / version].  An array of records: a validator that is
    not loose rejects with [Version specifier is too loose]; a loose one
    takes the last record of the array, caches it and resolves with it,
    if it has a name. *)
Theorem fetchDetails_lookup_outcomes this s w json :
  _details this = None ->
  respond (viewCommand this) (world s) = (w, inr json) ->
  let s' := settle s (viewCommand this) w (inr json) in
  (json = "" ->
   run (fetchDetails this) s = (s', inl (newError "Failed to find package / version")))
  /\ (forall items,
        json <> "" -> JSON_parse json = inr (JArray items) ->
        run (fetchDetails this) s =
          (s', if negb (loose this) then inl (newError "Version specifier is too loose")
               else match last items with
                    | None => inl (typeError "name")
                    | Some info =>
                        if Js.truthy (Info.name info)
                        then inr (set_details this (Some (JObject info)), info)
                        else inl (newError "Failed to find package / version")
                    end)).
Proof.
  intros Hd Hview s'. unfold fetchDetails. rewrite Hd.
  rewrite !run_bind, run_exec. fold (viewCommand this). rewrite Hview. cbv beta iota.
  fold s'. split.
  - intros ->. done.
  - intros items Hjson Hparse.
    replace (Js.nonEmpty json) with true
      by (symmetry; apply negb_true_iff, String.eqb_neq; done).
    rewrite Hparse. simpl.
    destruct (loose this); simpl; [|done].
    destruct (last items) as [info|]; simpl; [|done].
    by destruct (Js.truthy (Info.name info)).
Qed.

Lemma validDst_false dst : validDst dst = false <-> dst = "" \/ dst = "/".
Proof.
  unfold validDst, Js.nonEmpty, Js.strictNe. rewrite andb_false_iff, !negb_false_iff.
  by rewrite !String.eqb_eq.
Qed.

(** An empty destination and the root directory are refused before
    anything is done: both fetchers reject with [Invalid dst path] in
    the state they were called in, no command performed. *)
Theorem invalid_dst_is_refused_first this dst s :
  dst = "" \/ dst = "/" ->
  run (fetchPackageSource this dst) s = (s, inl (newError "Invalid dst path"))
  /\ run (fetchGitSource this dst) s = (s, inl (newError "Invalid dst path")).
Proof.
  intros Hdst%validDst_false.
  unfold fetchPackageSource, fetchPackageStream, fetchGitSource.
  by rewrite !run_bind, !run_assert, Hdst.
Qed.

(** When the server answers the request for the tarball with a status
    other than 200, [fetchPackageSource] rejects with [Bad server
    response: <status>] right after the request: no directory is made,
    nothing is extracted. *)
Theorem bad_status_stops_the_download this dst s s0 this' info dist url w status :
  validDst dst = true ->
  run (fetchDetails this) s = (s0, inr (this', info)) ->
  Info.dist info = Some dist ->
  Info.tarball dist = Some url ->
  url <> "" ->
  respond (WreckRequest "GET" url) (world s0) = (w, inr status) ->
  status <> 200%Z ->
  run (fetchPackageSource this dst) s =
    (settle s0 (WreckRequest "GET" url) w (inr status),
     inl (newError ("Bad server response: " +:+ Js.showZ status))).
Proof.
  intros Hdst Hinfo Hdist Htar Hurl Hreq Hstatus.
  unfold fetchPackageSource, fetchPackageStream.
  rewrite !run_bind, run_assert, Hdst. cbv beta iota.
  rewrite run_bind, Hinfo. cbv beta iota. rewrite Hdist, Htar.
  rewrite !run_bind, run_assert. simpl Js.truthy.
  replace (Js.nonEmpty url) with true
    by (symmetry; apply negb_true_iff, String.eqb_neq; done).
  cbv beta iota. simpl Js.show. simpl run at 1. cbv beta iota.
  rewrite run_bind, run_await, Hreq. cbv beta iota.
  rewrite run_bind.
  apply Z.eqb_neq in Hstatus as ->. done.
Qed.

End Details.

(** ** The commands a program performs *)

Section Only.
Context {W : Type} {outside : Outside W}.
Implicit Types s : RunState (W := W).

(** The commands of the awaited chain satisfy [Q]. *)
Lemma only_trace {A} (Q : Event -> Prop) (p : Prog A) s :
  only Q p ->
  exists added, trace (run p s).1 = trace s ++ added
                /\ Forall (fun e => Q (command e)) added.
Proof.
  intros Hp; revert s;
    induction Hp as [A a|A e|A R c k Hc _ IH|A r d k _ IH|A k _ IH|A q k Hq _ _ IH];
    intros s; simpl.
  - exists []. by rewrite app_nil_r.
  - exists []. by rewrite app_nil_r.
  - destruct (respond c (world s)) as [w o].
    destruct (IH o (settle s c w o)) as (added & -> & Hadded).
    exists (entry c o :: added). simpl. rewrite <- app_assoc. split; [done|].
    by constructor.
  - apply (IH _ (allocate s)).
  - destruct (pick (world s)) as [w b]. apply (IH b (chosen s w)).
  - apply (IH (leave s q)).
Qed.

(** And so does all that the calls left running can still do. *)
Lemma only_left {A} (Q : Event -> Prop) (p : Prog A) s :
  only Q p ->
  Forall (only Q) (detached s) ->
  Forall (only Q) (detached (run p s).1).
Proof.
  intros Hp; revert s;
    induction Hp as [A a|A e|A R c k Hc _ IH|A r d k _ IH|A k _ IH|A q k Hq _ _ IH];
    intros s Hs; simpl; try done.
  - destruct (respond c (world s)) as [w o]. by apply (IH o (settle s c w o)).
  - by apply (IH _ (allocate s)).
  - destruct (pick (world s)) as [w b]. by apply (IH b (chosen s w)).
  - apply (IH (leave s q)). simpl. apply Forall_app. split; [done|]. by constructor.
Qed.

Lemma resume_only (Q : Event -> Prop) s :
  Forall (only Q) (detached s) ->
  exists later, trace (resume s) = trace s ++ later
                /\ Forall (fun e => Q (command e)) later.
Proof.
  unfold resume.
  set (s0 := {| world := world s; allocated := allocated s; trace := trace s;
                detached := [] |}).
  change (trace s) with (trace s0). generalize s0. clear s0.
  induction (detached s) as [|q qs IH]; intros s0 Hqs; simpl.
  - exists []. by rewrite app_nil_r.
  - inversion Hqs as [|? ? Hq Hrest]; subst.
    destruct (only_trace Q q s0 Hq) as (added & Hadded & Hall).
    destruct (IH (run q s0).1 Hrest) as (later & -> & Hlater).
    exists (added ++ later). rewrite Hadded, <- app_assoc. split; [done|].
    by apply Forall_app.
Qed.

Lemma only_bind {A B} Q (p : Prog A) (f : A -> Prog B) :
  only Q p -> (forall a, only Q (f a)) -> only Q (bind p f).
Proof.
  intros Hp; revert B f; induction Hp; intros B f Hf; simpl; auto; constructor; auto.
Qed.

Lemma only_try_catch {A} Q (p : Prog A) h :
  only Q p -> (forall e, only Q (h e)) -> only Q (try_catch p h).
Proof.
  intros Hp; revert h; induction Hp; intros h Hh; simpl; auto; constructor; auto.
Qed.

Lemma only_finally {A} Q (p : Prog A) f :
  only Q p -> only Q f -> only Q (finally p f).
Proof.
  intros Hp Hf; induction Hp; simpl; try (constructor; auto).
  - apply only_bind; [done | constructor].
  - apply only_bind; [done | constructor].
Qed.

Lemma only_abandoned {A} Q (p : Prog A) : only Q p -> only Q (abandoned p).
Proof. intros Hp. apply only_bind; [done | constructor]. Qed.

Lemma only_all {A B} Q (p : Prog A) (q : Prog B) :
  only Q p -> only Q q -> only Q (all p q).
Proof.
  intros Hp; revert B q.
  induction Hp as [A a|A e|A R c k Hc Hk IH|A r d k Hk IH|A k Hk IH|A o k Ho _ Hk IH];
    intros B q Hq.
  - destruct Hq; simpl; constructor; try done; intros;
      apply only_bind; try done; intros; constructor.
  - destruct Hq; simpl; constructor; try (apply only_abandoned; constructor; by auto);
      constructor.
  - induction Hq as [B b|B e|B R' c' k' Hc' Hk' IH'|B r d k' Hk' IH'|B k' Hk' IH'
                     |B o k' Ho _ Hk' IH']; simpl.
    + constructor; [done|]. intros o. apply only_bind; [done | constructor].
    + constructor; [|constructor]. apply only_abandoned. by constructor.
    + constructor. intros [|].
      * constructor; [done|]. intros o. apply IH. by constructor.
      * constructor; [done|]. intros o. apply IH'.
    + constructor. intros t. apply IH'.
    + constructor. intros b. apply IH'.
    + constructor; [done|]. apply IH'.
  - destruct Hq; simpl; constructor; intros t; apply IH; constructor; auto.
  - destruct Hq; simpl; constructor; intros t; apply IH; constructor; auto.
  - destruct Hq; simpl; (constructor; [done|]); apply IH; constructor; auto.
Qed.

Lemma only_await {R} Q (c : Cmd R) : Q (event c) -> only Q (await c).
Proof. intros Hc. constructor; [done|]. intros [e|r]; constructor. Qed.

Lemma only_assert Q condition message : only Q (assert condition message).
Proof. destruct condition; constructor. Qed.

Lemma returns_finally {A} (P : A -> Prop) p f :
  returns P p -> returns P (finally p f).
Proof.
  intros Hp; induction Hp; simpl; try (constructor; auto).
  - eapply returns_bind; [apply returns_any|]. intros _ _. by constructor.
  - eapply returns_bind; [apply returns_any|]. intros _ _. constructor.
Qed.

Lemma returns_all {A B} (P : A -> Prop) (Q : B -> Prop) (p : Prog A) (q : Prog B) :
  returns P p -> returns Q q -> returns (fun ab => P ab.1 /\ Q ab.2) (all p q).
Proof.
  intros Hp; revert q;
    induction Hp as [a Ha|e|R c k Hk IH|r d k Hk IH|k Hk IH|o k Hk IH]; intros q Hq.
  - destruct Hq; simpl.
    + by constructor.
    + constructor.
    + constructor. intros o. eapply returns_bind; [done|]. intros b Hb. by constructor.
    + constructor. intros t Ht. eapply returns_bind; [by auto|]. intros b Hb. by constructor.
    + constructor. intros b. eapply returns_bind; [done|]. intros b' Hb. by constructor.
    + constructor. eapply returns_bind; [done|]. intros b' Hb. by constructor.
  - destruct Hq; simpl; repeat constructor.
  - induction Hq as [b Hb|e|R' c' k' Hk' IH'|r d k' Hk' IH'|k' Hk' IH'|o k' Hk' IH']; simpl.
    + constructor. intros o. eapply returns_bind; [done|]. intros a Ha. by constructor.
    + repeat constructor.
    + constructor. intros [|].
      * constructor. intros o. apply IH. by constructor.
      * constructor. intros o. apply IH'.
    + constructor. intros t Ht. by apply IH'.
    + constructor. intros b. apply IH'.
    + constructor. apply IH'.
  - destruct Hq; simpl; constructor; intros t Ht; apply IH; try done; constructor; auto.
  - destruct Hq; simpl; constructor; intros t; apply IH; constructor; auto.
  - destruct Hq; simpl; constructor; apply IH; constructor; auto.
Qed.

End Only.

(** One step through the structure of a program. *)
Ltac only_step :=
  lazymatch goal with
  | |- only _ (bind _ _) => apply only_bind; [|intros]
  | |- only _ (try_catch _ _) => apply only_try_catch; [|intros]
  | |- only _ (finally _ _) => apply only_finally
  | |- only _ (all _ _) => apply only_all
  | |- only _ (assert _ _) => apply only_assert
  | |- only _ (await _) => apply only_await
  | |- only _ (exec _ _ _) => apply only_await
  | |- only _ (Ret _) => constructor
  | |- only _ (Throw _) => constructor
  | |- only _ (New _ _ _) => constructor; intros
  | |- only _ (Call _ _) => constructor; [|intros]
  | |- only _ (Detach _ _) => constructor
  | |- only _ (match ?x with _ => _ end) => destruct x
  | |- only _ (let '(_, _) := ?x in _) => destruct x
  end.

Section CheckOnly.
Context {platform : Platform} {W : Type} {outside : Outside W}.
Implicit Types s : RunState (W := W).

Lemma only_fetchDetails Q this :
  Q (event (ExecFile "npm" ["view"; "-json"; package this +:+ "@" +:+ version this] None)) ->
  only Q (fetchDetails this).
Proof.
  intros Hview. unfold fetchDetails. repeat only_step; done.
Qed.

(** A command is no [rm], or removes one of the directories. *)
Ltac removes_side :=
  let args := fresh "args" in
  let H := fresh "H" in
  intros args H; unfold removal in H; simpl in H;
  first [ discriminate H
        | injection H as <-; eexists; split; [|reflexivity]; simpl; tauto ].

Lemma check_body_removes this tmpDir :
  only (removesOnly [tmpDir; Path_resolve (Path_join tmpDir "git")])
       (git <- fetchSources this (Path_join tmpDir "package") (Path_join tmpDir "git") ;;
        diffTrees this tmpDir git).
Proof.
  unfold fetchSources, fetchPackageSource, fetchPackageStream, fetchGitSource, reconcile,
    cloneByTag, gitClone, verifyHead, fetchBySha, diffTrees, fetchDone, tarDone, packageHash.
  repeat first [ apply only_fetchDetails | only_step ]; try removes_side.
Qed.

(** Every [rm] that [check] runs, by itself or by a call it has left
    running, is [rm -rf] of the scratch directory or of the resolved
    directory of the git checkout in it. *)
Theorem check_removes_nothing_else this s w1 tmp w2 tmpDir w3 :
  detached s = [] ->
  respond OsTmpdir (world s) = (w1, inr tmp) ->
  respond (UniqueFilename tmp) w1 = (w2, inr tmpDir) ->
  respond (FsMkdir tmpDir) w2 = (w3, inr tt) ->
  let s' := (run (check this) s).1 in
  exists added later,
    trace s' = trace s ++ added
    /\ trace (resume s') = trace s' ++ later
    /\ Forall (fun e => removesOnly [tmpDir; Path_resolve (Path_join tmpDir "git")] (command e))
              (added ++ later).
Proof.
  intros Hnone Htmp Hname Hmkdir.
  rewrite (run_check _ _ _ _ _ _ _ Htmp Hname Hmkdir). cbv zeta.
  set (Q := removesOnly [tmpDir; Path_resolve (Path_join tmpDir "git")]).
  match goal with |- context [run ?body ?s0] =>
    destruct (only_trace Q body s0 (check_body_removes this tmpDir)) as (added & Hadded & Hall);
    pose proof (only_left Q body s0 (check_body_removes this tmpDir)) as Hleft;
    destruct (run body s0) as [s1 r] end.
  simpl in Hadded, Hleft. rewrite Hnone in Hleft. specialize (Hleft (List.Forall_nil _)).
  destruct (respond (removeCommand tmpDir) (world s1)) as [w o]. cbn [fst].
  destruct (resume_only Q (settle s1 (removeCommand tmpDir) w o) Hleft) as (later & Hlater & Hall').
  eexists _, later. split; [|split; [exact Hlater|]].
  - simpl. rewrite Hadded, <- !app_assoc. reflexivity.
  - simpl. repeat (constructor; [subst Q; removes_side|]).
    rewrite <- app_assoc. apply Forall_app. split; [done|].
    constructor; [subst Q; removes_side | done].
Qed.

Lemma check_cached_asks_nothing this info :
  _details this = Some (JObject info) ->
  Js.truthy (Info.name info) = true ->
  only (fun e => asksRegistry e = false) (check this).
Proof.
  intros Hd Hn.
  unfold check, fetchSources. rewrite (fetchDetails_cached _ _ Hd Hn). cbn [bind].
  unfold fetchPackageSource, fetchPackageStream, fetchGitSource.
  rewrite (fetchDetails_cached _ _ Hd Hn).
  unfold reconcile,
    cloneByTag, gitClone, verifyHead, fetchBySha, diffTrees, fetchDone, tarDone, packageHash.
  repeat first [ progress cbn [bind] | only_step ]; try reflexivity.
Qed.

(** Once [fetchDetails] has resolved, [check] on the validator asks the
    registry no more: none of its commands runs [npm]. *)
Theorem check_asks_the_registry_no_more this s s' this' info :
  run (fetchDetails this) s = (s', inr (this', info)) ->
  forall s2, exists added,
    trace (run (check this') s2).1 = trace s2 ++ added
    /\ Forall (fun e => asksRegistry (command e) = false) added.
Proof.
  intros Hrun s2. destruct (fetchDetails_inr _ _ _ _ _ Hrun) as (Hn & Hd & _).
  apply (only_trace (fun e => asksRegistry e = false)). by eapply check_cached_asks_nothing.
Qed.

End CheckOnly.

(** ** More of the reconciler and of [check] *)

Section Outcomes.
Context {platform : Platform} {W : Type} {outside : Outside W}.
Implicit Types s : RunState (W := W).

(** When the fallback by sha is entered (the tag stage or the reading of
    HEAD threw, the host is github and the record has a [gitHead]) and
    [fetchGitSource] resolves, then the six fallback steps have been
    performed, in order and with success, right behind the failed stage,
    and the result is a new taint [tag-missing] that names the two tags
    tried. *)
Theorem sha_fallback_success_is_tag_missing this dst s s0 this' info url s1 err s' t :
  validDst dst = true ->
  run (fetchDetails this) s = (s0, inr (this', info)) ->
  gitRepositoryUrl info = Some url ->
  let repoUrl := cloneUrl url in
  let version := Js.show (Info.version info) in
  let dir := Path_resolve dst in
  run (cloneByTag repoUrl version dir ;; verifyHead (Info.gitHead info) dir) s0
    = (s1, inl err) ->
  isGithub url = true ->
  Js.truthy (Info.gitHead info) = true ->
  run (fetchGitSource this dst) s = (s', inr t) ->
  trace s' = trace s1
             ++ map succeeded (fallbackCommands repoUrl (Js.show (Info.gitHead info)) dir)
  /\ Taint.reason t = Some "tag-missing"
  /\ Taint.details t = Some (Taint.Tags ["v" +:+ version; version])
  /\ Taint.clean t = false.
Proof.
  intros Hdst Hinfo Hurl repoUrl version0 dir Htry Hgithub Hhead Hrun.
  rewrite (run_fetchGitSource _ _ _ _ _ _ _ Hdst Hinfo Hurl) in Hrun.
  unfold reconcile in Hrun. fold repoUrl version0 dir in Hrun.
  rewrite run_bind, run_try_catch, Htry in Hrun. cbv beta iota in Hrun.
  rewrite Hgithub, Hhead in Hrun. simpl negb in Hrun. simpl orb in Hrun. cbv iota in Hrun.
  unfold fetchBySha in Hrun.
  repeat
    (rewrite run_bind, ?run_exec, ?run_await in Hrun; simpl world in Hrun;
     match type of Hrun with
     | context [respond ?c ?w] => destruct (respond c w) as [? [?|?]]
     end;
     cbv beta iota in Hrun; [done|]).
  simpl in Hrun. injection Hrun as <- <-. simpl.
  rewrite <- !app_assoc. split; [|done]. by f_equal.
Qed.

(** When the scratch directory cannot be made, [check] rejects with the
    error of [mkdir] and performs no further command: nothing is fetched
    and nothing is removed. *)
Theorem failed_mkdir_leaves_nothing_to_remove this s w1 tmp w2 tmpDir w3 e :
  respond OsTmpdir (world s) = (w1, inr tmp) ->
  respond (UniqueFilename tmp) w1 = (w2, inr tmpDir) ->
  respond (FsMkdir tmpDir) w2 = (w3, inl e) ->
  run (check this) s =
    (settle (settle (settle s OsTmpdir w1 (inr tmp)) (UniqueFilename tmp) w2 (inr tmpDir))
            (FsMkdir tmpDir) w3 (inl e),
     inl e).
Proof.
  intros Htmp Hname Hmkdir. unfold check.
  rewrite run_bind, run_await, Htmp; cbv beta iota.
  rewrite run_bind, run_await; simpl world.
  rewrite Hname; cbv beta iota.
  rewrite run_bind, run_await; simpl world.
  by rewrite Hmkdir.
Qed.

Lemma diffTrees_returns this tmpDir git :
  returns (fun t => t = git) (diffTrees this tmpDir git).
Proof.
  unfold diffTrees. apply returns_try_catch.
  - eapply returns_bind; [apply returns_any|]. intros _ _. by constructor.
  - intros err. destruct (_ && _); [|constructor].
    cbv zeta. destruct (Js.nonEmpty _); by constructor.
Qed.

Lemma fetchSources_returns this pkgPath gitPath :
  returns (fun t => t = Taint.none \/ Taint.clean t = false)
          (fetchSources this pkgPath gitPath).
Proof.
  unfold fetchSources.
  eapply returns_bind; [apply returns_any|]. intros [this' _] _.
  eapply returns_bind.
  { apply returns_all; [apply returns_any | apply fetchGitSource_returns]. }
  intros [t git] [_ Hgit]. simpl in Hgit.
  eapply returns_bind; [apply returns_any|]. intros _ _. by constructor.
Qed.

(** [check] resolves with the taint of the git checkout: the object
    [Taint.none], or a taint that is not clean. *)
Lemma check_returns this :
  returns (fun t => t = Taint.none \/ Taint.clean t = false) (check this).
Proof.
  unfold check.
  eapply returns_bind; [apply returns_any|]. intros tmp _.
  eapply returns_bind; [apply returns_any|]. intros tmpDir _.
  eapply returns_bind; [apply returns_any|]. intros _ _.
  apply returns_finally.
  eapply returns_bind; [apply fetchSources_returns|]. intros git Hgit.
  eapply returns_weaken; [|apply diffTrees_returns]. by intros ? ->.
Qed.


End Outcomes.

(** ** More of the walker, and the command line *)

Section WalkOutcomes.
Context {platform : Platform} {W : Type} {outside : Outside W}.
Implicit Types σ : Walk (W := W).

Lemma lookup_insert_absent (m : gmap string (option Taint.t)) k k' v x :
  m !! k = Some v -> m !! k' = None -> <[k' := x]> m !! k = Some v.
Proof. intros Hk Hk'. rewrite lookup_insert_ne; [done | congruence]. Qed.

(** [validatePkg] writes only under keys that were not in the table. *)
Lemma validatePkg_keeps_entries pkg version loose σ σ' reply :
  validatePkg pkg version loose σ = (σ', reply) -> results σ ⊆ results σ'.
Proof.
  unfold validatePkg. intros Hrun. apply map_subseteq_spec. intros k v Hk.
  repeat case_match; simplify_eq; simpl; try done;
    repeat match goal with
    | H : <[_ := _]> _ !! _ = None |- _ => apply lookup_insert_None in H as [? ?]
    end;
    rewrite ?lookup_insert_ne by congruence; done.
Qed.

Lemma validate_keeps_entries fuel pkg version loose recursive σ σ' r :
  validate fuel pkg version loose recursive σ = Some (σ', r) -> results σ ⊆ results σ'.
Proof.
  apply (validate_keeps (fun σ' => results σ ⊆ results σ')); [done| |done].
  intros ? ? ? σ1 σ2 ? Hpkg Hσ1. etrans; [done|]. by eapply validatePkg_keeps_entries.
Qed.

(** The loop resolves with [true] only if it started untainted and every
    dependency resolved with [true]. *)
Lemma eachDependency_true recurse deps tainted σ σ' :
  eachDependency recurse deps tainted σ = Some (σ', inr true) -> tainted = false.
Proof.
  revert tainted σ. induction deps as [|[dep spec] deps IH]; intros tainted σ.
  - simpl. intros [= _ Ht]. by apply negb_true_iff in Ht.
  - rewrite eachDependency_cons.
    destruct (run checkAbort (state σ)) as [s [e|[]]]; [done|].
    destruct (recurse dep spec (with_state σ s)) as [[σ1 [e|ok]]|]; [done| |done].
    intros Hrest. apply IH in Hrest. by apply orb_false_iff in Hrest as [-> _].
Qed.

Lemma eachDependency_success (I : Walk -> Prop) recurse deps tainted σ σ' :
  (forall σ s, I σ -> I (with_state σ s)) ->
  (forall dep spec σ σ', I σ -> recurse dep spec σ = Some (σ', inr true) -> I σ') ->
  I σ -> eachDependency recurse deps tainted σ = Some (σ', inr true) -> I σ'.
Proof.
  intros Hstate Hrec. revert tainted σ.
  induction deps as [|[dep spec] deps IH]; intros tainted σ Hσ.
  - by intros [= <- _].
  - rewrite eachDependency_cons.
    destruct (run checkAbort (state σ)) as [s [e|[]]]; [done|].
    destruct (recurse dep spec (with_state σ s)) as [[σ1 [e|ok]]|] eqn:Hr; [done| |done].
    intros Hrest. pose proof (eachDependency_true _ _ _ _ _ Hrest) as Hok.
    apply orb_false_iff in Hok as [_ Hok%negb_false_iff]. subst ok.
    eapply IH; [|done]. eapply Hrec; [|done]. by apply Hstate.
Qed.

(** A reply that [validate] takes for clean. *)
Lemma validatePkg_clean pkg version loose σ σ' reply t :
  validatePkg pkg version loose σ = (σ', reply) ->
  result reply = Some t -> Taint.clean t = true ->
  allClean σ -> allClean σ'.
Proof.
  unfold validatePkg, allClean. intros Hrun Hres Hclean Hσ.
  repeat case_match; simplify_eq; cbn [result error info results checks] in *; simplify_eq; try done.
  - intros k Hk. specialize (Hσ k Hk). by rewrite lookup_insert_ne by congruence.
  - match goal with H : run (check _) _ = _ |- _ =>
      pose proof (returns_sound _ _ _ _ _ (check_returns _) H) as [->|Hc]; [|congruence] end.
    repeat match goal with
    | H : <[_ := _]> _ !! _ = None |- _ => apply lookup_insert_None in H as [? ?]
    end.
    intros k [Hk| ->%list_elem_of_singleton]%elem_of_app.
    + specialize (Hσ k Hk). by rewrite !lookup_insert_ne by congruence.
    + match goal with |- <[?q := _]> _ !! ?v = _ => destruct (decide (q = v)) as [->|] end.
      * by rewrite lookup_insert_eq.
      * by rewrite lookup_insert_ne, lookup_insert_eq.
Qed.

Lemma validate_clean fuel pkg version loose recursive σ σ' :
  validate fuel pkg version loose recursive σ = Some (σ', inr true) ->
  allClean σ -> allClean σ'.
Proof.
  revert pkg version loose recursive σ σ'. induction fuel as [|fuel IH]; [done|].
  intros pkg version0 loose0 recursive σ σ'. rewrite validate_S.
  destruct (validatePkg pkg version0 loose0 σ) as [σ1 reply] eqn:Hreply.
  destruct (run (report (error reply)) (state σ1)) as [s [e|[]]]; [done|].
  cbv zeta. intros Hrun Hσ.
  assert (Htainted : from_option (fun result => negb (Taint.clean result)) true (result reply)
                     = false).
  { revert Hrun.
    destruct (info reply) as [i|]; [|intros [= _ Ht]; by apply negb_true_iff in Ht].
    destruct (Info.dependencies i) as [deps|]; [|intros [= _ Ht]; by apply negb_true_iff in Ht].
    destruct recursive; [|intros [= _ Ht]; by apply negb_true_iff in Ht].
    apply eachDependency_true. }
  destruct (result reply) as [t|] eqn:Hres; [|done]. simpl in Htainted.
  apply negb_false_iff in Htainted.
  assert (H1 : allClean σ1) by (by eapply validatePkg_clean).
  change (allClean (with_state σ1 s)) in H1.
  revert Hrun.
  destruct (info reply) as [i|]; [|by intros [= <- _]].
  destruct (Info.dependencies i) as [deps|]; [|by intros [= <- _]].
  destruct recursive; [|by intros [= <- _]].
  apply (eachDependency_success allClean); [done| |done].
  intros dep spec σ2 σ3 Hσ2 Hrec. by eapply IH.
Qed.

(** What [validate] does once [validatePkg] has answered keeps such a
    property too. *)
Lemma validate_keeps_after (I : Walk -> Prop) :
  (forall σ s, I σ -> I (with_state σ s)) ->
  (forall pkg version loose σ σ' reply,
     validatePkg pkg version loose σ = (σ', reply) -> I σ -> I σ') ->
  forall fuel pkg version loose recursive σ σ1 reply σ' r,
    validatePkg pkg version loose σ = (σ1, reply) ->
    validate fuel pkg version loose recursive σ = Some (σ', r) ->
    I σ1 -> I σ'.
Proof.
  intros Hstate Hpkg [|fuel] pkg version0 loose0 recursive σ σ1 reply σ' r Hreply; [done|].
  rewrite validate_S, Hreply. intros Hrun H1. revert Hrun.
  destruct (run (report (error reply)) (state σ1)) as [s [e|[]]].
  { intros [= <- _]. by apply Hstate. }
  assert (H2 : I (with_state σ1 s)) by (by apply Hstate).
  cbv zeta.
  destruct (info reply) as [i|]; [|by intros [= <- _]].
  destruct (Info.dependencies i) as [deps|]; [|by intros [= <- _]].
  destruct recursive; [|by intros [= <- _]].
  apply eachDependency_keeps; [done| |done].
  intros dep spec σ2 σ3 r3 Hσ2. by apply validate_keeps.
Qed.

Lemma validatePkg_checks pkg version loose σ σ' reply :
  validatePkg pkg version loose σ = (σ', reply) -> checks σ `prefix_of` checks σ'.
Proof.
  unfold validatePkg. intros Hrun.
  repeat case_match; simplify_eq; simpl; try done; by apply prefix_app_r.
Qed.

(** The root of a walk that resolves with [true] from a table without
    the query holds [Taint.none] under the key of its resolved version. *)
Lemma validate_root fuel pkg version loose recursive σ σ' :
  validate fuel pkg version loose recursive σ = Some (σ', inr true) ->
  results σ = ∅ ->
  results σ' !! key pkg version = Some (Some Taint.none) /\ checks σ' <> [].
Proof.
  destruct fuel as [|fuel]; [done|]. rewrite validate_S.
  destruct (validatePkg pkg version loose σ) as [σ1 reply] eqn:Hreply.
  destruct (run (report (error reply)) (state σ1)) as [s [e|[]]] eqn:Hreport; [done|].
  cbv zeta. intros Hrun Hempty.
  assert (Htainted : from_option (fun result => negb (Taint.clean result)) true (result reply)
                     = false).
  { revert Hrun.
    destruct (info reply) as [i|]; [|intros [= _ Ht]; by apply negb_true_iff in Ht].
    destruct (Info.dependencies i) as [deps|]; [|intros [= _ Ht]; by apply negb_true_iff in Ht].
    destruct recursive; [|intros [= _ Ht]; by apply negb_true_iff in Ht].
    apply eachDependency_true. }
  destruct (result reply) as [t|] eqn:Hres; [|done]. simpl in Htainted.
  apply negb_false_iff in Htainted.
  assert (H1 : results σ1 !! key pkg version = Some (Some Taint.none) /\ checks σ1 <> []).
  { revert Hreply. unfold validatePkg, key. rewrite Hempty, lookup_empty.
    repeat case_match; intros; simplify_eq; cbn [result error info results checks] in *; simplify_eq.
    all: try match goal with
             | H : <[_ := None]> ∅ !! _ = Some _ |- _ =>
                 apply lookup_insert_Some in H as [[_ ?]|[_ H]];
                 [done | by rewrite lookup_empty in H]
             end.
    all: match goal with H : run (check _) _ = _ |- _ =>
           pose proof (returns_sound _ _ _ _ _ (check_returns _) H) as [->|Hc]; [|congruence]
         end.
    all: rewrite lookup_insert_eq; split; [done|]; by destruct (checks σ). }
  destruct H1 as [Hroot Hchecked].
  assert (Hlater : results σ1 ⊆ results σ' /\ checks σ1 `prefix_of` checks σ').
  { assert (Hwhole : validate (S fuel) pkg version loose recursive σ = Some (σ', inr true)).
    { rewrite validate_S, Hreply, Hreport. cbv zeta. by rewrite Hres. }
    split.
    - refine (validate_keeps_after (fun σ' => results σ1 ⊆ results σ') (fun _ _ H => H)
                _ _ _ _ _ _ _ _ _ _ _ Hreply Hwhole _); [|done].
      intros ? ? ? σ2 σ3 ? Hpkg Hσ2. etrans; [done|]. by eapply validatePkg_keeps_entries.
    - refine (validate_keeps_after (fun σ' => checks σ1 `prefix_of` checks σ')
                (fun _ _ H => H) _ _ _ _ _ _ _ _ _ _ _ Hreply Hwhole _); [|done].
      intros ? ? ? σ2 σ3 ? Hpkg Hσ2. etrans; [done|]. by eapply validatePkg_checks. }
  destruct Hlater as [Hresults [more Hchecks]]. split.
  - by eapply lookup_weaken.
  - rewrite Hchecks. by destruct (checks σ1).
Qed.


(** What the memo table holds under a key when [validate] is called, an
    outcome or [undefined], it holds under that key when the call
    resolves. *)
Theorem memo_entries_are_final fuel pkg version loose recursive σ σ' r k v :
  validate fuel pkg version loose recursive σ = Some (σ', r) ->
  results σ !! k = Some v ->
  results σ' !! k = Some v.
Proof.
  intros Hrun Hk. eapply lookup_weaken; [done|]. by eapply validate_keeps_entries.
Qed.

(** A walk from the empty memo table resolves with [true] only if
    [check()] has been run, every [check()] that has been run resolved
    with the object [Taint.none], and so did the one of the root
    query. *)
Theorem success_means_every_check_was_clean fuel pkg version loose recursive (w : W) σ' :
  validate fuel pkg version loose recursive (start w) = Some (σ', inr true) ->
  checks σ' <> []
  /\ (forall k, k ∈ checks σ' -> results σ' !! k = Some (Some Taint.none))
  /\ results σ' !! key pkg version = Some (Some Taint.none).
Proof.
  intros Hrun. destruct (validate_root _ _ _ _ _ _ _ Hrun eq_refl) as [Hroot Hchecked].
  split; [done|]. split; [|done].
  apply (validate_clean _ _ _ _ _ _ _ Hrun). intros k Hk. by apply elem_of_nil in Hk.
Qed.

(** A query that resolves to a version already in the memo table is
    answered with the outcome of that version, and its own key is left
    holding [undefined]: the same query once more is answered with
    [false], whatever the outcome of the version. *)
Theorem revisited_specifier_is_reported_tainted
    fuel fuel' pkg version loose loose' recursive recursive' σ s v i stored :
  results σ !! key pkg version = None ->
  run (lookupDetails pkg version loose) (state σ) = (s, inr (v, i)) ->
  results σ !! key pkg (Js.show (Info.version i)) = Some stored ->
  exists σ1,
    validate (S fuel) pkg version loose recursive σ
      = Some (σ1, inr (from_option Taint.clean false stored))
    /\ validate (S fuel') pkg version loose' recursive' σ1 = Some (σ1, inr false).
Proof.
  intros Hquery Hlookup Hhit. eexists. split.
  - by eapply validate_version_hit.
  - rewrite (validate_query_hit _ _ _ _ _ _ None); [done|].
    simpl. by rewrite lookup_insert_eq.
Qed.

(** When the flag [exiting] is set once the root package is done and its
    dependencies are to be walked, [validate] rejects with [Aborted]
    before the first of them is looked at; a walk that is not recursive
    does not read the flag and resolves. *)
Theorem interrupt_rejects_before_next_dependency
    fuel pkg version loose σ σ1 reply s1 i dep spec deps w :
  validatePkg pkg version loose σ = (σ1, reply) ->
  run (report (error reply)) (state σ1) = (s1, inr tt) ->
  info reply = Some i ->
  Info.dependencies i = Some ((dep, spec) :: deps) ->
  respond Exiting (world s1) = (w, inr true) ->
  validate (S fuel) pkg version loose true σ =
    Some (with_state σ1 (settle s1 Exiting w (inr true)), inl (newError "Aborted"))
  /\ exists ok, validate (S fuel) pkg version loose false σ = Some (with_state σ1 s1, inr ok).
Proof.
  intros Hreply Hreport Hinfo Hdeps Hexit. split.
  - rewrite validate_S, Hreply, Hreport. cbv zeta. rewrite Hinfo, Hdeps.
    rewrite eachDependency_cons. unfold checkAbort.
    rewrite run_bind, run_await. simpl world. by rewrite Hexit.
  - rewrite validate_S, Hreply, Hreport. cbv zeta. rewrite Hinfo, Hdeps. eauto.
Qed.

(** A query with an empty package name or an empty version specifier
    fails in the constructor of [Validator]: no command is performed,
    the reply carries the error [Bad package name] or [Bad package
    version], and the query key is left holding [undefined]. *)
Theorem empty_specifier_fails_without_lookup pkg version loose σ :
  results σ !! key pkg version = None ->
  pkg = "" \/ version = "" ->
  validatePkg pkg version loose σ =
    ({| results := <[key pkg version := None]> (results σ);
        checks := checks σ; state := state σ |},
     {| result := None;
        error := Some (newError (if Js.nonEmpty pkg then "Bad package version"
                                 else "Bad package name"));
        info := None |}).
Proof.
  unfold validatePkg, key, lookupDetails, newValidator. intros -> Hempty.
  rewrite !run_bind, run_assert.
  destruct (Js.nonEmpty pkg) eqn:Hpkg; [|done].
  destruct Hempty as [->| ->]; [done|]. cbv beta iota.
  by rewrite run_bind, run_assert.
Qed.

Section Main.
Variable inspectError : JsError -> string.


End Main.

End WalkOutcomes.

(** ** The advisory, incomplete records and the script *)

Section Advice.
Context {platform : Platform} {W : Type} {outside : Outside W}.
Implicit Types s : RunState (W := W).

(** [check] tells on [console.error] that the checkout is tainted exactly
    when it is: once the two sources are fetched with a taint that is not
    clean, the advisory with its reason and details is the last thing
    done; with a clean one nothing is written to [console.error]. *)
Theorem tainted_checkout_is_announced this pkgPath gitPath s s' git :
  run (fetchSources this pkgPath gitPath) s = (s', inr git) ->
  exists added,
    trace s' = trace s ++ added
    /\ if Taint.clean git
       then Forall (fun e => announces (command e) = false) added
       else last added
            = Some (succeeded (event (ConsoleError
                ("git checkout tainted due to " +:+ DQ +:+ Js.show (Taint.reason git)
                   +:+ DQ +:+ ": " +:+ inspect (Taint.details git))))).
Proof.
  unfold fetchSources. intros Hrun.
  apply run_bind_inr in Hrun as (s0 & [this' i] & Hdetails & Hrun).
  apply run_bind_inr in Hrun as (s1 & [t git'] & Hall & Hrun).
  apply run_bind_inr in Hrun as (s2 & [] & Hadvice & Hrun).
  simpl in Hrun. injection Hrun as <- <-.
  destruct (only_trace (fun e => announces e = false) (fetchDetails this) s) as (a0 & H0 & Hq0).
  { apply only_fetchDetails. reflexivity. }
  rewrite Hdetails in H0. simpl in H0.
  destruct (only_trace (fun e => announces e = false)
              (all (fetchPackageSource this' pkgPath) (fetchGitSource this' gitPath)) s0)
    as (a1 & H1 & Hq1).
  { unfold fetchPackageSource, fetchPackageStream, fetchGitSource, reconcile,
      cloneByTag, gitClone, verifyHead, fetchBySha, fetchDone, tarDone, packageHash.
    repeat first [ apply only_fetchDetails | only_step ]; reflexivity. }
  rewrite Hall in H1. simpl in H1.
  destruct (Taint.clean git') eqn:Hclean; cbn [negb] in Hadvice.
  - simpl in Hadvice. injection Hadvice as <-. exists (a0 ++ a1). rewrite H1, H0, <- app_assoc.
    split; [done|]. by apply Forall_app.
  - rewrite run_await in Hadvice.
    destruct (respond _ (world s1)) as [w [e|[]]]; [done|].
    injection Hadvice as <-. simpl. eexists. rewrite H1, H0, <- !app_assoc.
    split; [reflexivity|]. by rewrite !app_assoc, last_snoc.
Qed.


(** A record without a repository of type [git] with a url makes
    [fetchGitSource] reject with [Did not find git repo url], and a
    record whose [dist] has no tarball makes [fetchPackageSource] reject
    with [Missing package url], both right after the lookup, no further
    command performed. *)
Theorem incomplete_record_is_refused this dst s s0 this' info :
  validDst dst = true ->
  run (fetchDetails this) s = (s0, inr (this', info)) ->
  (gitRepositoryUrl info = None ->
   run (fetchGitSource this dst) s = (s0, inl (newError "Did not find git repo url")))
  /\ (forall dist,
        Info.dist info = Some dist -> Js.truthy (Info.tarball dist) = false ->
        run (fetchPackageSource this dst) s = (s0, inl (newError "Missing package url"))).
Proof.
  intros Hdst Hinfo. split.
  - intros Hnone. unfold fetchGitSource.
    rewrite run_bind, run_assert, Hdst; cbv beta iota.
    rewrite run_bind, Hinfo; cbv beta iota.
    rewrite run_bind, run_assert.
    unfold gitRepositoryUrl in Hnone.
    destruct (Info.repository info) as [repo|]; simpl default; [|done].
    destruct (bool_decide _ && _) eqn:Hcond; [|done].
    apply andb_true_iff in Hcond as [_ Hurl].
    by destruct (Info.url repo).
  - intros dist Hdist Htar. unfold fetchPackageSource, fetchPackageStream.
    rewrite !run_bind, run_assert, Hdst; cbv beta iota.
    rewrite run_bind, Hinfo; cbv beta iota. rewrite Hdist.
    by rewrite !run_bind, run_assert, Htar.
Qed.

Section Script.
Variable inspectError : JsError -> string.
Variable usage : string.


End Script.

End Advice.

(** ** More on the sample worlds *)

Section MoreSamples.
#[local] Existing Instance Sample.platform.

Lemma fetchDetails_answers_from_cache_witness :
  let outside := Sample.world Sample.fine in
  exists s' this',
    run (fetchDetails Sample.validatorA) (initial tt) = (s', inr (this', Sample.a))
    /\ _details this' = Some (JObject Sample.a)
    /\ run (fetchDetails this') s' = (s', inr (this', Sample.a)).
Proof.
  intros outside. eexists _, _. split; [reflexivity|].
  edestruct (fetchDetails_answers_from_cache (outside := outside)
               Sample.validatorA (initial tt)) as (_ & Hcache & Hagain); [reflexivity|].
  split; [exact Hcache | apply Hagain].
Defined.

Lemma invalid_dst_is_refused_first_witness :
  let outside := Sample.world Sample.fine in
  run (fetchGitSource Sample.validatorA "/") (initial tt)
  = (initial tt, inl (newError "Invalid dst path")).
Proof.
  intros outside.
  apply (invalid_dst_is_refused_first (outside := outside) Sample.validatorA "/" (initial tt)).
  by right.
Defined.

Lemma diff_without_git_only_lines_is_kept_witness :
  filterDiff ("Only in package: extra.js" +:+ NL +:+ "Only in package: lib" +:+ NL)
  = "Only in package: extra.js" +:+ NL +:+ "Only in package: lib".
Proof.
  rewrite diff_without_git_only_lines_is_kept; [reflexivity|].
  repeat (constructor; [reflexivity|]). constructor.
Defined.

Lemma fetchDetails_lookup_outcomes_witness :
  let platform := Sample.catalogue in
  let outside :=
    Sample.staged
      {| Sample.knobs := Sample.fine;
         Sample.view :=
           Some (inr "[ { name: 'a', version: '1.0.0' }, { name: 'a', version: '1.1.0' } ]");
         Sample.status := 200; Sample.made := inr tt; Sample.sigint := false |} in
  let strict := {| package := "a"; version := "1"; loose := false; _details := None |} in
  let lenient := {| package := "a"; version := "1"; loose := true; _details := None |} in
  (run (fetchDetails strict) (initial tt)).2 = inl (newError "Version specifier is too loose")
  /\ (run (fetchDetails lenient) (initial tt)).2
     = inr (set_details lenient (Some (JObject Sample.newer)), Sample.newer).
Proof.
  intros platform outside strict lenient. split.
  - edestruct (fetchDetails_lookup_outcomes (platform := platform) (outside := outside)
                 strict (initial tt)) as [_ Harray]; [reflexivity | reflexivity |].
    rewrite (Harray [Sample.a; Sample.newer]); [reflexivity | discriminate | reflexivity].
  - edestruct (fetchDetails_lookup_outcomes (platform := platform) (outside := outside)
                 lenient (initial tt)) as [_ Harray]; [reflexivity | reflexivity |].
    rewrite (Harray [Sample.a; Sample.newer]); [reflexivity | discriminate | reflexivity].
Defined.

Lemma bad_status_stops_the_download_witness :
  let outside :=
    Sample.staged
      {| Sample.knobs := Sample.fine; Sample.view := None;
         Sample.status := 404; Sample.made := inr tt; Sample.sigint := false |} in
  let out := run (fetchPackageSource Sample.validatorA "/tmp/1-2-3/package") (initial tt) in
  out.2 = inl (newError "Bad server response: 404")
  /\ last (trace out.1)
     = Some (entry (WreckRequest "GET" "https://registry.npmjs.org/a/-/a-1.0.0.tgz")
                   (inr 404%Z)).
Proof.
  intros outside out. subst out.
  erewrite (bad_status_stops_the_download (outside := outside)
              Sample.validatorA "/tmp/1-2-3/package" (initial tt));
    [| reflexivity | reflexivity | reflexivity | reflexivity | discriminate | reflexivity
     | discriminate ].
  split; reflexivity.
Defined.

Lemma sha_fallback_success_is_tag_missing_witness :
  let outside := Sample.world Sample.noTags in
  exists s' t,
    run (fetchGitSource Sample.validatorA "/tmp/1-2-3/git") (initial tt) = (s', inr t)
    /\ Taint.reason t = Some "tag-missing"
    /\ Taint.details t = Some (Taint.Tags ["v1.0.0"; "1.0.0"])
    /\ Taint.clean t = false.
Proof.
  intros outside.
  set (out := run (fetchGitSource Sample.validatorA "/tmp/1-2-3/git") (initial tt)).
  set (t := {| Taint.ref := 1; Taint.reason := Some "tag-missing";
               Taint.details := Some (Taint.Tags ["v1.0.0"; "1.0.0"]) |}).
  assert (Hrun : out = (out.1, inr t)) by (vm_compute; reflexivity).
  exists out.1, t. split; [exact Hrun|].
  refine (proj2 (sha_fallback_success_is_tag_missing (outside := outside)
            Sample.validatorA "/tmp/1-2-3/git" (initial tt) _ _
            Sample.a "git+https://github.com/sample/a.git" _ (Sample.noSuchTag "v1.0.0") out.1 t
            _ _ _ _ _ _ Hrun));
    reflexivity.
Defined.

Lemma failed_mkdir_leaves_nothing_to_remove_witness :
  let refused := Error "EACCES: permission denied, mkdir" (CodeName "EACCES") None in
  let outside :=
    Sample.staged
      {| Sample.knobs := Sample.fine; Sample.view := None;
         Sample.status := 200; Sample.made := inl refused; Sample.sigint := false |} in
  let out := run (check Sample.validatorA) (initial tt) in
  out.2 = inl refused
  /\ trace out.1
     = [entry OsTmpdir (inr "/tmp"); entry (UniqueFilename "/tmp") (inr "/tmp/1-2-3");
        entry (FsMkdir "/tmp/1-2-3") (inl refused)].
Proof.
  intros refused outside out. subst out.
  erewrite (failed_mkdir_leaves_nothing_to_remove (outside := outside)
              Sample.validatorA (initial tt)); [| reflexivity ..].
  split; reflexivity.
Defined.

Lemma check_removes_nothing_else_witness :
  let outside := Sample.world Sample.noTags in
  let s' := (run (check Sample.validatorA) (initial tt)).1 in
  exists added later,
    trace s' = [] ++ added
    /\ trace (resume s') = trace s' ++ later
    /\ Forall (fun e => removesOnly ["/tmp/1-2-3"; "/tmp/1-2-3/git"] (command e))
              (added ++ later).
Proof.
  intros outside s'.
  exact (check_removes_nothing_else (outside := outside) Sample.validatorA (initial tt)
           tt "/tmp" tt "/tmp/1-2-3" tt eq_refl eq_refl eq_refl eq_refl).
Defined.

Lemma check_asks_the_registry_no_more_witness :
  let outside := Sample.world Sample.fine in
  exists this' s' added,
    run (fetchDetails Sample.validatorA) (initial tt) = (s', inr (this', Sample.a))
    /\ trace (run (check this') s').1 = trace s' ++ added
    /\ Forall (fun e => asksRegistry (command e) = false) added.
Proof.
  intros outside. eexists _, _.
  edestruct (check_asks_the_registry_no_more (outside := outside)
               Sample.validatorA (initial tt)) as (added & Htrace & Hall); [reflexivity|].
  exists added. split; [reflexivity|]. split; [exact Htrace | exact Hall].
Defined.

Lemma memo_entries_are_final_witness :
  let outside := Sample.world Sample.fine in
  let σ0 := (validatePkg "a" "latest" false (start tt)).1 in
  results σ0 !! "a@1.0.0" = Some (Some Taint.none)
  /\ exists σ' r,
       validate 2 "b" "^1.0.0" true true σ0 = Some (σ', r)
       /\ results σ' !! "a@1.0.0" = Some (Some Taint.none).
Proof.
  intros outside σ0.
  assert (Hentry : results σ0 !! "a@1.0.0" = Some (Some Taint.none))
    by (vm_compute; reflexivity).
  split; [exact Hentry|].
  destruct (validate 2 "b" "^1.0.0" true true σ0) as [[σ' r]|] eqn:Hwalk;
    [|exfalso; revert Hwalk; vm_compute; discriminate].
  exists σ', r. split; [reflexivity|].
  exact (memo_entries_are_final (outside := outside) _ _ _ _ _ _ _ _ _ _ Hwalk Hentry).
Defined.

Lemma success_means_every_check_was_clean_witness :
  let outside := Sample.world Sample.fine in
  exists σ',
    validate 3 "a" "latest" false true (start tt) = Some (σ', inr true)
    /\ checks σ' <> []
    /\ results σ' !! key "a" "latest" = Some (Some Taint.none).
Proof.
  intros outside.
  destruct (validate 3 "a" "latest" false true (start tt)) as [[σ' [e|[|]]]|] eqn:Hwalk;
    try (exfalso; revert Hwalk; vm_compute; discriminate).
  exists σ'. split; [reflexivity|].
  destruct (success_means_every_check_was_clean (outside := outside) _ _ _ _ _ _ _ Hwalk)
    as (Hchecked & _ & Hroot).
  split; [exact Hchecked | exact Hroot].
Defined.

Lemma revisited_specifier_is_reported_tainted_witness :
  let outside := Sample.world Sample.fine in
  let σ0 := (validatePkg "a" "latest" false (start tt)).1 in
  exists σ1,
    validate 1 "a" "^1.0.0" true true σ0 = Some (σ1, inr true)
    /\ validate 1 "a" "^1.0.0" true true σ1 = Some (σ1, inr false).
Proof.
  intros outside σ0.
  set (v := {| package := "a"; version := "^1.0.0"; loose := true;
               _details := Some (JObject Sample.a) |}).
  set (looked := run (lookupDetails "a" "^1.0.0" true) (state σ0)).
  assert (Hlookup : looked = (looked.1, inr (v, Sample.a))) by (vm_compute; reflexivity).
  refine (revisited_specifier_is_reported_tainted (outside := outside)
            0 0 "a" "^1.0.0" true true true true σ0 looked.1 v Sample.a (Some Taint.none)
            _ Hlookup _); vm_compute; reflexivity.
Defined.

Lemma interrupt_rejects_before_next_dependency_witness :
  let outside :=
    Sample.staged
      {| Sample.knobs := Sample.fine; Sample.view := None;
         Sample.status := 200; Sample.made := inr tt; Sample.sigint := true |} in
  exists σ',
    validate 2 "a" "latest" false true (start tt) = Some (σ', inl (newError "Aborted"))
    /\ checks σ' = ["a@1.0.0"].
Proof.
  intros outside.
  set (out := validatePkg "a" "latest" false (start tt)).
  set (reply := {| result := Some Taint.none; error := None; info := Some Sample.a |}).
  assert (Hout : out = (out.1, reply)) by (vm_compute; reflexivity).
  destruct (interrupt_rejects_before_next_dependency (outside := outside)
              1 "a" "latest" false (start tt) out.1 reply (state out.1) Sample.a
              "b" "^1.0.0" [] tt Hout eq_refl eq_refl eq_refl eq_refl) as [Habort _].
  eexists. split; [exact Habort|]. vm_compute. reflexivity.
Defined.

Lemma empty_specifier_fails_without_lookup_witness :
  let outside := Sample.world Sample.fine in
  let out := validatePkg "b" "" true (start tt) in
  error out.2 = Some (newError "Bad package version")
  /\ trace (state out.1) = []
  /\ results out.1 !! "b@" = Some None.
Proof.
  intros outside out. subst out.
  rewrite (empty_specifier_fails_without_lookup (outside := outside) "b" "" true (start tt));
    [| reflexivity | by right].
  split; [reflexivity|]. split; [reflexivity|]. vm_compute. reflexivity.
Defined.


Lemma tainted_checkout_is_announced_witness :
  let outside := Sample.world Sample.movedTag in
  let out := run (fetchSources Sample.validatorA "/tmp/1-2-3/package" "/tmp/1-2-3/git")
                 (initial tt) in
  exists added,
    trace out.1 = [] ++ added
    /\ last added
       = Some (succeeded (event (ConsoleError
           ("git checkout tainted due to " +:+ DQ +:+ "sha-mismatch" +:+ DQ +:+ ": { ... }")))).
Proof.
  intros outside out.
  set (git := {| Taint.ref := 1; Taint.reason := Some "sha-mismatch";
                 Taint.details := Some (Taint.Sha (Some Sample.head) Sample.otherHead) |}).
  assert (Hout : out = (out.1, inr git)) by (vm_compute; reflexivity).
  exact (tainted_checkout_is_announced (outside := outside) _ _ _ (initial tt) _ git Hout).
Defined.

Lemma incomplete_record_is_refused_witness :
  let outside :=
    Sample.staged
      {| Sample.knobs := Sample.fine;
         Sample.view := Some (inr "{ name: 'bare', version: '0.0.1' }");
         Sample.status := 200; Sample.made := inr tt; Sample.sigint := false |} in
  let validator := {| package := "bare"; version := "latest"; loose := false;
                      _details := None |} in
  (run (fetchGitSource (platform := Sample.catalogue) validator "/tmp/1-2-3/git")
       (initial tt)).2
    = inl (newError "Did not find git repo url")
  /\ (run (fetchPackageSource (platform := Sample.catalogue) validator "/tmp/1-2-3/package")
          (initial tt)).2
     = inl (newError "Missing package url").
Proof.
  intros outside validator.
  edestruct (incomplete_record_is_refused (platform := Sample.catalogue) (outside := outside)
               validator "/tmp/1-2-3/git" (initial tt)) as [Hgit _];
    [reflexivity | reflexivity |].
  edestruct (incomplete_record_is_refused (platform := Sample.catalogue) (outside := outside)
               validator "/tmp/1-2-3/package" (initial tt)) as [_ Hpackage];
    [reflexivity | reflexivity |].
  rewrite Hgit by reflexivity. erewrite Hpackage; [|reflexivity | reflexivity].
  split; reflexivity.
Defined.


Lemma packageHash_outcomes_witness :
  packageHash Sample.signed = Ret {| alg := "sha1"; hash := Sample.sha1 |}
  /\ packageHash Sample.a = Ret {| alg := "sha1"; hash := Sample.sha1 |}
  /\ packageHash Sample.bare = Throw (newError "No package hash").
Proof.
  split; [|split].
  - edestruct (packageHash_outcomes Sample.signed) as (Hintegrity & _); [reflexivity|].
    rewrite (Hintegrity "sha1" "qZk+NkcGgWq6PiVxeFDCbJzQ2J0=" "");
      [vm_compute; reflexivity | reflexivity | reflexivity | reflexivity | by left].
  - edestruct (packageHash_outcomes Sample.a) as (_ & _ & Hsum & _); [reflexivity|].
    apply Hsum; [reflexivity | reflexivity | discriminate].
  - edestruct (packageHash_outcomes Sample.bare) as (_ & _ & _ & Hnone); [reflexivity|].
    apply Hnone; reflexivity.
Defined.

End MoreSamples.
